(** * Bolt Fleet Integration client: shallow embedding and contract proofs

    The development follows the two Python modules of the package:
    - [bolt_schemas.py]: the pydantic record declarations;
    - [bolt/bolt_client.py]: the [Client] class, its token handling and
      its four resource methods.

    Python objects that originate from [json.loads] are values of [json];
    the transport ([requests.post]), the wall clock ([datetime.now]) and
    the process environment ([os.getenv]) are components of an explicit
    [World]; methods of [Client] are computations in a state-and-exception
    monad over the pair of the client object and the world. *)

From Stdlib Require Import ZArith List String Ascii Bool Lia SpecFloat.
Import ListNotations.
Local Open Scope string_scope.
Local Open Scope Z_scope.
Set Warnings "-register-all".

(** ** Python values *)

(** binary64, the format of a Python [float]. *)
Definition float := spec_float.
Definition float_prec : Z := 53.
Definition float_emax : Z := 1024.

(** [float(z)] for an [int]: round to nearest, ties to even. *)
Definition float_of_Z (z : Z) : float :=
  binary_normalize float_prec float_emax z 0 false.

Definition float_eqb (a b : float) : bool := SFeqb a b.

Definition float_is_zero (f : float) : bool :=
  match f with S754_zero _ => true | _ => false end.

(** The integer a finite float with no fractional part denotes. *)
Definition float_integral (f : float) : option Z :=
  match f with
  | S754_zero _ => Some 0
  | S754_finite s m e =>
      let v := if s then Z.neg m else Z.pos m in
      if 0 <=? e then Some (v * 2 ^ e)
      else if (Z.pos m) mod (2 ^ (- e)) =? 0 then Some (Z.quot v (2 ^ (- e)))
      else None
  | _ => None
  end.

(** What [json.loads] produces: [None], [bool], [int], [float], [str],
    [list] and [dict].  A [dict] is an association list read by first
    match. *)
Inductive json : Type :=
| JNull
| JBool (b : bool)
| JInt (z : Z)
| JFloat (f : float)
| JStr (s : string)
| JArr (l : list json)
| JObj (kv : list (string * json)).

(** Python truth value, as tested by [not x]. *)
Definition truthy (v : json) : bool :=
  match v with
  | JNull => false
  | JBool b => b
  | JInt z => negb (z =? 0)
  | JFloat f => negb (float_is_zero f)
  | JStr s => negb (s =? EmptyString)%string
  | JArr l => match l with [] => false | _ => true end
  | JObj kv => match kv with [] => false | _ => true end
  end.

(** [d.get(k)] on the association list of a [dict]. *)
Fixpoint dict_get {A : Type} (kv : list (string * A)) (k : string) : option A :=
  match kv with
  | [] => None
  | (k', v) :: rest => if (k' =? k)%string then Some v else dict_get rest k
  end.

(** [v == n] for an [int] literal [n]: [bool] is a subtype of [int], and
    a [float] compares by value (exact for the literals used here, which
    are far below 2^53). *)
Definition py_eq_int (v : json) (n : Z) : bool :=
  match v with
  | JBool b => (if b then 1 else 0) =? n
  | JInt z => z =? n
  | JFloat f => float_eqb f (float_of_Z n)
  | _ => false
  end.

(** ** Exceptions

    The client raises plain [Exception] objects told apart by their
    message; the constructors keep the data interpolated in the message.
    Every constructor is a subclass of [Exception], so [except Exception]
    catches all of them. *)
Inductive exn : Type :=
| AuthError (status : Z) (body : string)
    (* Exception(f"Failed to get access token: {status} {text}") *)
| AuthErrorNoToken
    (* Exception("No access token received in response") *)
| ApiError (what : string) (status : Z) (body : string)
    (* Exception(f"Failed to get {what}: {status} {text}") *)
| ValidationError (title : string) (errors : list (list string * string))
    (* pydantic.ValidationError: model title, (location, error type) *)
| JSONDecodeError      (* response.json() on a body that is not JSON *)
| AttributeError       (* .get on an object that is not a dict *)
| TypeError            (* iterating a non-iterable, unpacking a non-mapping *)
| ConnectionError.     (* requests.post could not obtain a response *)

Definition result (A : Type) : Type := (exn + A)%type.

(** [v.get(k, default)]: only a [dict] has the method. *)
Definition py_get (v : json) (k : string) (default : json) : result json :=
  match v with
  | JObj kv => inr (match dict_get kv k with Some x => x | None => default end)
  | _ => inl AttributeError
  end.

Definition chars (s : string) : list json :=
  map (fun c => JStr (String c EmptyString)) (list_ascii_of_string s).

(** The items a [for] loop draws from a value: the elements of a list,
    the keys of a dict, the characters of a string. *)
Definition py_iter (v : json) : result (list json) :=
  match v with
  | JArr l => inr l
  | JObj kv => inr (map (fun p => JStr (fst p)) kv)
  | JStr s => inr (chars s)
  | _ => inl TypeError
  end.

(** ** Record schemas ([bolt_schemas.py])

    The classes are pydantic models: a class body is a list of field
    declarations and construction validates a mapping against it.  The
    validation engine belongs to the pydantic library; the part of it
    these declarations exercise on JSON input is modelled by [validate]
    below, after the conversion rules of its default (lax) mode: a value
    of the declared type is kept as it is, a few conversions between
    scalar types are accepted, keys that are not declared are ignored,
    and all the failures of one construction are reported together. *)

(** class PortalStatus(Enum) *)
Inductive PortalStatus : Type := active | inactive.

(** [PortalStatus.value] *)
Definition PortalStatus_value (p : PortalStatus) : string :=
  match p with active => "active" | inactive => "inactive" end.

Definition PortalStatus_of_string (s : string) : option PortalStatus :=
  if (s =? "active")%string then Some active
  else if (s =? "inactive")%string then Some inactive
  else None.

Module Text.

Definition ord (c : ascii) : Z := Z.of_nat (nat_of_ascii c).

Definition digit (c : ascii) : option Z :=
  let n := ord c in
  if (48 <=? n) && (n <=? 57) then Some (n - 48) else None.

Definition hex_digit (c : ascii) : option Z :=
  let n := ord c in
  if (48 <=? n) && (n <=? 57) then Some (n - 48)
  else if (97 <=? n) && (n <=? 102) then Some (n - 87)
  else if (65 <=? n) && (n <=? 70) then Some (n - 55)
  else None.

(** Horner evaluation of a non-empty run of digits in base [b]. *)
Fixpoint horner (dig : ascii -> option Z) (b : Z) (acc : Z) (cs : list ascii)
  : option Z :=
  match cs with
  | [] => Some acc
  | c :: rest =>
      match dig c with
      | Some d => horner dig b (b * acc + d) rest
      | None => None
      end
  end.

Definition number (dig : ascii -> option Z) (b : Z) (cs : list ascii) : option Z :=
  match cs with [] => None | _ => horner dig b 0 cs end.

Definition lower (c : ascii) : ascii :=
  let n := ord c in
  if (65 <=? n) && (n <=? 90) then ascii_of_nat (Z.to_nat (n + 32)) else c.

Definition lowercase (s : string) : string :=
  string_of_list_ascii (map lower (list_ascii_of_string s)).

Definition strip_prefix (p s : string) : string :=
  if String.prefix p s
  then String.substring (String.length p) (String.length s - String.length p) s
  else s.

Definition strip_braces (s : string) : string :=
  let n := String.length s in
  match String.get 0 s, String.get (Nat.pred n) s with
  | Some "{"%char, Some "}"%char => String.substring 1 (n - 2) s
  | _, _ => s
  end.

(** An optional sign followed by decimal digits. *)
Definition signed_decimal (cs : list ascii) : option Z :=
  match cs with
  | "-"%char :: rest => option_map Z.opp (number digit 10 rest)
  | "+"%char :: rest => number digit 10 rest
  | _ => number digit 10 cs
  end.

Fixpoint split_at_dot (cs : list ascii) : list ascii * option (list ascii) :=
  match cs with
  | [] => ([], None)
  | "."%char :: rest => ([], Some rest)
  | c :: rest => let (a, b) := split_at_dot rest in (c :: a, b)
  end.

End Text.

Module Pydantic.

(** [int]: an [int] (hence a [bool]), a [float] without fractional
    part, or a string holding a decimal integer. *)
Definition as_int (j : json) : option Z :=
  match j with
  | JInt z => Some z
  | JBool b => Some (if b then 1 else 0)
  | JFloat f => float_integral f
  | JStr s => Text.signed_decimal (list_ascii_of_string s)
  | _ => None
  end.

(** A decimal numeral [digits] or [digits.digits] with optional sign,
    rounded as the quotient of two floats. *)
Definition float_of_string (s : string) : option float :=
  match Text.split_at_dot (list_ascii_of_string s) with
  | (ip, None) => option_map float_of_Z (Text.signed_decimal ip)
  | (ip, Some fp) =>
      match Text.signed_decimal (ip ++ fp), fp with
      | _, [] => None
      | Some m, _ =>
          Some (SFdiv float_prec float_emax (float_of_Z m)
                  (float_of_Z (10 ^ Z.of_nat (List.length fp))))
      | None, _ => None
      end
  end.

(** [float]: a [float], an [int] (hence a [bool]), or a numeric string. *)
Definition as_float (j : json) : option float :=
  match j with
  | JFloat f => Some f
  | JInt z => Some (float_of_Z z)
  | JBool b => Some (float_of_Z (if b then 1 else 0))
  | JStr s => float_of_string s
  | _ => None
  end.

(** [str]: a [str] only. *)
Definition as_str (j : json) : option string :=
  match j with JStr s => Some s | _ => None end.

Definition true_words : list string := ["1"; "on"; "t"; "true"; "y"; "yes"].
Definition false_words : list string := ["0"; "off"; "f"; "false"; "n"; "no"].

Definition mem (s : string) (l : list string) : bool :=
  existsb (String.eqb s) l.

(** [bool]: a [bool], the numbers 0 and 1, or one of the truth words. *)
Definition as_bool (j : json) : option bool :=
  match j with
  | JBool b => Some b
  | JInt z => if z =? 0 then Some false else if z =? 1 then Some true else None
  | JFloat f =>
      match float_integral f with
      | Some 0 => Some false
      | Some 1 => Some true
      | _ => None
      end
  | JStr s =>
      let w := Text.lowercase s in
      if mem w true_words then Some true
      else if mem w false_words then Some false
      else None
  | _ => None
  end.

Definition hyphen_free (cs : list ascii) : option (list ascii) :=
  match cs with
  | a1 :: a2 :: a3 :: a4 :: a5 :: a6 :: a7 :: a8 :: "-"%char ::
    b1 :: b2 :: b3 :: b4 :: "-"%char ::
    c1 :: c2 :: c3 :: c4 :: "-"%char ::
    d1 :: d2 :: d3 :: d4 :: "-"%char :: rest =>
      Some (a1 :: a2 :: a3 :: a4 :: a5 :: a6 :: a7 :: a8 ::
            b1 :: b2 :: b3 :: b4 :: c1 :: c2 :: c3 :: c4 ::
            d1 :: d2 :: d3 :: d4 :: rest)
  | _ => None
  end.

(** [UUID]: a string in one of the textual forms of a UUID (hyphenated
    8-4-4-4-12, 32 bare hexadecimal digits, either of them in braces or
    after [urn:uuid:]); the value is the 128-bit number it denotes. *)
Definition uuid_of_string (s : string) : option Z :=
  let cs := list_ascii_of_string
              (Text.strip_braces (Text.strip_prefix "urn:uuid:" s)) in
  let hex := match hyphen_free cs with Some h => h | None => cs end in
  if (List.length hex =? 32)%nat then Text.number Text.hex_digit 16 hex
  else None.

Definition as_uuid (j : json) : option Z :=
  match j with JStr s => uuid_of_string s | _ => None end.

(** An [Enum] with string values: the value of one of the members. *)
Definition as_portal_status (j : json) : option PortalStatus :=
  match j with JStr s => PortalStatus_of_string s | _ => None end.

End Pydantic.

(** Declared field types, and field declarations: [name: T] is required,
    [name: Optional[T] = None] is optional with default [None]. *)
Inductive ftype : Type :=
| TInt | TFloat | TStr | TBool | TUUID | TPortalStatus
| TList (t : ftype)
| TModel (title : string) (fields : list field)
with field : Type :=
| Req (name : string) (t : ftype)
| Opt (name : string) (t : ftype).

Definition field_name (f : field) : string :=
  match f with Req n _ => n | Opt n _ => n end.

Definition field_type (f : field) : ftype :=
  match f with Req _ t => t | Opt _ t => t end.

Definition is_required (f : field) : bool :=
  match f with Req _ _ => true | Opt _ _ => false end.

(** Validated field values; a model instance holds one value per
    declared field, in declaration order. *)
Inductive value : Type :=
| VNone
| VInt (z : Z)
| VFloat (f : float)
| VStr (s : string)
| VBool (b : bool)
| VUUID (u : Z)
| VStatus (p : PortalStatus)
| VList (l : list value)
| VModel (title : string) (attrs : list (string * value)).

(** class OrderStop(BaseModel) *)
Definition OrderStop : ftype :=
  TModel "OrderStop"
    [ Opt "lat" TFloat;
      Opt "lng" TFloat;
      Opt "real_lat" TFloat;
      Opt "real_lng" TFloat;
      Opt "type" TStr ].

(** class OrderPrice(BaseModel) *)
Definition OrderPrice : ftype :=
  TModel "OrderPrice"
    [ Opt "booking_fee" TFloat;
      Opt "cancellation_fee" TFloat;
      Opt "cash_discount" TFloat;
      Opt "net_earnings" TFloat;
      Opt "tip" TFloat;
      Opt "commission" TFloat;
      Opt "in_app_discount" TFloat;
      Opt "toll_fee" TFloat;
      Opt "ride_price" TFloat ].

(** class FleetOrder(BaseModel) *)
Definition FleetOrder : ftype :=
  TModel "FleetOrder"
    [ Opt "order_reference" TStr;
      Opt "driver_name" TStr;
      Opt "payment_method" TStr;
      Opt "driver_uuid" TStr;
      Opt "driver_phone" TStr;
      Opt "partner_uuid" TStr;
      Opt "payment_confirmed_timestamp" TInt;
      Opt "order_created_timestamp" TInt;
      Opt "order_status" TStr;
      Opt "vehicle_model" TStr;
      Opt "vehicle_license_plate" TStr;
      Opt "price_review_reason" TStr;
      Opt "pickup_address" TStr;
      Opt "ride_distance" TFloat;
      Opt "order_accepted_timestamp" TInt;
      Opt "order_pickup_timestamp" TInt;
      Opt "order_drop_off_timestamp" TInt;
      Opt "order_finished_timestamp" TInt;
      Opt "order_stops" (TList OrderStop);
      Opt "order_price" OrderPrice ].

(** class Vehicle(BaseModel) *)
Definition Vehicle : ftype :=
  TModel "Vehicle"
    [ Req "id" TInt;
      Req "model" TStr;
      Req "year" TInt;
      Req "reg_number" TStr;
      Req "uuid" TUUID;
      Req "state" TPortalStatus ].

(** class Driver(BaseModel) *)
Definition Driver : ftype :=
  TModel "Driver"
    [ Req "driver_uuid" TUUID;
      Req "partner_uuid" TUUID;
      Req "first_name" TStr;
      Req "last_name" TStr;
      Req "email" TStr;
      Req "phone" TStr;
      Req "state" TPortalStatus;
      Req "has_cash_payment" TBool ].

(** class FleetStateLog(BaseModel) *)
Definition FleetStateLog : ftype :=
  TModel "FleetStateLog"
    [ Req "created" TInt;
      Req "state" TStr;
      Req "driver_uuid" TUUID;
      Req "vehicle_uuid" TUUID;
      Req "lat" TFloat;
      Req "lng" TFloat ].

Module Validation.

(** One line of a validation report: where, and what kind. *)
Definition verror : Type := (list string * string)%type.

(** Outcome of validating one value: the report, or the value. *)
Definition V (A : Type) : Type := (list verror + A)%type.

Definition fail {A} (kind : string) : V A := inl [([], kind)].

Definition of_option {A} (kind : string) (mk : A -> value) (o : option A) : V value :=
  match o with Some a => inr (mk a) | None => fail kind end.

(** Prefix every location of a report with the enclosing key. *)
Definition under {A} (key : string) (r : V A) : V A :=
  match r with
  | inl es => inl (map (fun e => (key :: fst e, snd e)) es)
  | inr a => inr a
  end.

(** Both outcomes are computed and their reports concatenated. *)
Definition both {A B} (x : V A) (y : V (list B)) (cons : A -> list B -> list B)
  : V (list B) :=
  match x, y with
  | inr a, inr l => inr (cons a l)
  | inl e1, inl e2 => inl (e1 ++ e2)%list
  | inl e1, inr _ => inl e1
  | inr _, inl e2 => inl e2
  end.

(** Modelled from the spec: the validation that pydantic's [BaseModel]
    performs when a record is constructed from a mapping (the library is
    not part of the repository's sources).  A required field that is
    missing, or a value that cannot be coerced to the declared type,
    yields a report; an optional field that is omitted or [None] is
    [None]; nested models and lists are validated element by element. *)
Fixpoint validate (t : ftype) (j : json) {struct t} : V value :=
  match t with
  | TInt => of_option "int_type" VInt (Pydantic.as_int j)
  | TFloat => of_option "float_type" VFloat (Pydantic.as_float j)
  | TStr => of_option "string_type" VStr (Pydantic.as_str j)
  | TBool => of_option "bool_type" VBool (Pydantic.as_bool j)
  | TUUID => of_option "uuid_type" VUUID (Pydantic.as_uuid j)
  | TPortalStatus => of_option "enum" VStatus (Pydantic.as_portal_status j)
  | TList t' =>
      match j with
      | JArr l =>
          match
            fold_right (fun x acc => both (validate t' x) acc cons) (inr []) l
          with
          | inl es => inl es
          | inr vs => inr (VList vs)
          end
      | _ => fail "list_type"
      end
  | TModel title fs =>
      match j with
      | JObj kv =>
          match
            (fix fields (fs : list field) : V (list (string * value)) :=
               match fs with
               | [] => inr []
               | f :: rest => both (validate_field f kv) (fields rest) cons
               end) fs
          with
          | inl es => inl es
          | inr attrs => inr (VModel title attrs)
          end
      | _ => fail "model_type"
      end
  end
with validate_field (f : field) (kv : list (string * json)) {struct f}
  : V (string * value) :=
  match f with
  | Req name t =>
      match dict_get kv name with
      | None => inl [([name], "missing")]
      | Some j =>
          match under name (validate t j) with
          | inl es => inl es
          | inr v => inr (name, v)
          end
      end
  | Opt name t =>
      match dict_get kv name with
      | None | Some JNull => inr (name, VNone)
      | Some j =>
          match under name (validate t j) with
          | inl es => inl es
          | inr v => inr (name, v)
          end
      end
  end.

(** The fields of one class body against the keyword arguments. *)
Fixpoint validate_fields (fs : list field) (kv : list (string * json))
  : V (list (string * value)) :=
  match fs with
  | [] => inr []
  | f :: rest => both (validate_field f kv) (validate_fields rest kv) cons
  end.

End Validation.

(** A model class called on an unpacked item (double-star call): the item
    must be a mapping, whose entries become the keyword arguments; a failed validation raises [ValidationError]. *)
Definition construct (model : ftype) (item : json) : result value :=
  match item with
  | JObj _ =>
      match Validation.validate model item with
      | inl es => inl (ValidationError
                         (match model with TModel title _ => title | _ => EmptyString end) es)
      | inr v => inr v
      end
  | _ => inl TypeError
  end.

(** [getattr(record, name)] on a model instance. *)
Definition attr (v : value) (name : string) : option value :=
  match v with VModel _ attrs => dict_get attrs name | _ => None end.

(** ** The world around the client *)

(** A completed HTTP response: [status_code], [text], and what
    [response.json()] gives ([None] when it raises because the body is
    not JSON; the parser itself is not modelled). *)
Record Response : Type := mkResponse {
  status_code : Z;
  text : string;
  json_of : option json
}.

(** The payload of a [requests.post] call: [data=] (form fields) or
    [json=]. *)
Inductive payload : Type :=
| Form (fields : list (string * option string))
| Json (body : json).

(** One [requests.post] call.  The [Authorization] header is the
    f-string [Bearer {token}]; the interpolated token is kept as it is. *)
Record Request : Type := mkRequest {
  url : string;
  content_type : option string;
  bearer : option json;
  sent : payload
}.

(** A naive [datetime]: a date and time of day on the local wall clock,
    counted in microseconds, and the [fold] attribute that tells the
    second pass through a repeated wall-clock hour from the first. *)
Record datetime : Type := mkDatetime {
  wall : Z;
  fold : bool
}.

(** - [inbox]: the responses the transport will deliver, in order; when
      none is left [requests.post] raises;
    - [outbox]: the requests issued so far, oldest first;
    - [clock], [reads]: [clock k] is what the [k]-th call of
      [datetime.now()] returns, [reads] counts the calls made;
    - [local_to_posix]: the rules of the local time zone, as the
      conversion [timestamp()] applies to the whole wall-clock seconds
      and the fold of a naive datetime to obtain POSIX seconds;
    - [environ]: the process environment read by [os.getenv]. *)
Record World : Type := mkWorld {
  inbox : list Response;
  outbox : list Request;
  clock : nat -> datetime;
  reads : nat;
  local_to_posix : Z -> bool -> Z;
  environ : list (string * string)
}.

(** The attributes of a [Client] instance; [None] is [JNull]. *)
Record Client : Type := mkClient {
  client_id : option string;
  client_secret : option string;
  base_url : option string;
  access_token : json
}.

Record State : Type := mkState {
  self : Client;
  world : World
}.

(** ** Computations: state that survives a raised exception *)

Definition M (A : Type) : Type := State -> result A * State.

Definition ret {A} (a : A) : M A := fun st => (inr a, st).

Definition raise {A} (e : exn) : M A := fun st => (inl e, st).

Definition bind {A B} (m : M A) (k : A -> M B) : M B :=
  fun st =>
    match m st with
    | (inr a, st') => k a st'
    | (inl e, st') => (inl e, st')
    end.

(** [try: body / except Exception: handler]. *)
Definition try_except {A} (body : M A) (handler : M A) : M A :=
  fun st =>
    match body st with
    | (inr a, st') => (inr a, st')
    | (inl _, st') => handler st'
    end.

Definition lift {A} (r : result A) : M A := fun st => (r, st).

Declare Scope py_scope.
Delimit Scope py_scope with py.
Notation "x <- m ;; k" := (bind m (fun x => k))
  (at level 61, m at next level, right associativity) : py_scope.
Notation "m ;; k" := (bind m (fun _ => k))
  (at level 61, right associativity) : py_scope.
Local Open Scope py_scope.

Fixpoint mapM {A B} (f : A -> M B) (l : list A) : M (list B) :=
  match l with
  | [] => ret []
  | x :: rest => y <- f x ;; ys <- mapM f rest ;; ret (y :: ys)
  end.

Definition get_self : M Client := fun st => (inr (self st), st).

(** [self.access_token = tok] *)
Definition set_access_token (tok : json) : M unit :=
  fun st =>
    (inr tt,
     {| self := {| client_id := client_id (self st);
                   client_secret := client_secret (self st);
                   base_url := base_url (self st);
                   access_token := tok |};
        world := world st |}).

(** [requests.post(...)]: the request leaves, the next response of the
    transport comes back. *)
Definition requests_post (rq : Request) : M Response :=
  fun st =>
    let w := world st in
    match inbox w with
    | [] =>
        (inl ConnectionError,
         {| self := self st;
            world := {| inbox := []; outbox := outbox w ++ [rq];
                        clock := clock w; reads := reads w;
                        local_to_posix := local_to_posix w;
                        environ := environ w |} |})
    | r :: rest =>
        (inr r,
         {| self := self st;
            world := {| inbox := rest; outbox := outbox w ++ [rq];
                        clock := clock w; reads := reads w;
                        local_to_posix := local_to_posix w;
                        environ := environ w |} |})
    end.

(** [response.json()] *)
Definition response_json (r : Response) : M json :=
  match json_of r with
  | Some j => ret j
  | None => raise JSONDecodeError
  end.

(** ** Time

    [datetime.now()] reads the clock.  Subtracting a [timedelta] moves
    the wall-clock reading back by that much, whatever the zone did in
    between, and gives a datetime whose fold is 0.  [timestamp()]
    converts the whole seconds to POSIX time by the rules of the local
    zone and adds the microseconds divided by [1e6], in binary64;
    [int()] truncates that float toward zero. *)
Definition datetime_now : M datetime :=
  fun st =>
    let w := world st in
    (inr (clock w (reads w)),
     {| self := self st;
        world := {| inbox := inbox w; outbox := outbox w;
                    clock := clock w; reads := S (reads w);
                    local_to_posix := local_to_posix w;
                    environ := environ w |} |}).

(** [timedelta(days=d)], in microseconds. *)
Definition timedelta_days (d : Z) : Z := d * 86400 * 1000000.

(** [dt - delta] for a [timedelta]. *)
Definition minus_timedelta (dt : datetime) (delta : Z) : datetime :=
  {| wall := wall dt - delta; fold := false |}.

(** The whole seconds and the microsecond field of a naive datetime. *)
Definition wall_seconds (dt : datetime) : Z := wall dt / 1000000.
Definition microsecond (dt : datetime) : Z := wall dt mod 1000000.

(** [dt.timestamp()] of a naive datetime in a zone: the POSIX seconds of
    its whole seconds, plus [microsecond / 1e6], as floats. *)
Definition timestamp_float (zone : Z -> bool -> Z) (dt : datetime) : float :=
  SFadd float_prec float_emax
    (float_of_Z (zone (wall_seconds dt) (fold dt)))
    (SFdiv float_prec float_emax
       (float_of_Z (microsecond dt)) (float_of_Z 1000000)).

Definition timestamp (dt : datetime) : M float :=
  fun st => (inr (timestamp_float (local_to_posix (world st)) dt), st).

(** [int(x)] of a float: truncation toward zero.  (It raises on an
    infinity or a NaN, which the timestamp of a datetime never is; the
    value given there is not used.) *)
Definition py_int (x : float) : Z :=
  match x with
  | S754_finite sign m e =>
      let magnitude := if 0 <=? e then Z.pos m * 2 ^ e
                       else Z.pos m / 2 ^ (- e) in
      if sign then - magnitude else magnitude
  | _ => 0
  end.

(** [str(x)] inside an f-string, for an attribute that may be [None]. *)
Definition str_of (o : option string) : string :=
  match o with Some s => s | None => "None" end.

(** ** class Client ([bolt/bolt_client.py]) *)

(** Client.get_access_token *)
Definition get_access_token : M json :=
  c <- get_self ;;
  response <- requests_post
    {| url := "https://oidc.bolt.eu/token";
       content_type := None;
       bearer := None;
       sent := Form [ ("client_id", client_id c);
                      ("client_secret", client_secret c);
                      ("grant_type", Some "client_credentials");
                      ("scope", Some "fleet-integration:api") ] |} ;;
  if negb (status_code response =? 200) then
    raise (AuthError (status_code response) (text response))
  else
    body <- response_json response ;;
    token <- lift (py_get body "access_token" JNull) ;;
    if negb (truthy token) then raise AuthErrorNoToken
    else ret token.

(** Client._ensure_token *)
Definition _ensure_token : M unit :=
  c <- get_self ;;
  if negb (truthy (access_token c)) then
    token <- get_access_token ;;
    set_access_token token
  else ret tt.

(** Client._refresh_token_if_needed.  The [try] block spans the call of
    [get_access_token]; a block or handler that ends without [return]
    falls through to the final [return False]. *)
Definition _refresh_token_if_needed (response : Response) : M bool :=
  try_except
    (response_data <- response_json response ;;
     hit <- (if status_code response =? 401 then ret true
             else code <- lift (py_get response_data "code" JNull) ;;
                  ret (py_eq_int code 503)) ;;
     if hit then
       token <- get_access_token ;;
       set_access_token token ;;
       ret true
     else ret false)
    (if status_code response =? 401 then
       token <- get_access_token ;;
       set_access_token token ;;
       ret true
     else ret false).

(** Client.__init__ *)
Definition __init__ : M unit :=
  (fun st =>
     let env := environ (world st) in
     (inr tt,
      {| self := {| client_id := dict_get env "BOLT_CLIENT_ID";
                    client_secret := dict_get env "BOLT_CLIENT_SECRET";
                    base_url := dict_get env "BOLT_API_URL";
                    access_token := JNull |};
         world := world st |})) ;;
  _ensure_token.

(** The [portal_status] argument: a member of the enumeration, or any
    other object (which has no attribute [value]). *)
Inductive portal_arg : Type :=
| PEnum (p : PortalStatus)
| PRaw (v : json).

(** [portal_status.value if hasattr(portal_status, 'value') else portal_status] *)
Definition portal_status_value (portal_status : portal_arg) : json :=
  match portal_status with
  | PEnum p => JStr (PortalStatus_value p)
  | PRaw v => v
  end.

(** Client.get_fleet_orders *)
Definition get_fleet_orders (offset limit : Z) (company_ids : list Z)
    (start_ts end_ts : option Z) : M (list value) :=
  _ensure_token ;;
  start_ts <- match start_ts with
              | None => now <- datetime_now ;;
                        ts <- timestamp (minus_timedelta now (timedelta_days 1)) ;;
                        ret (py_int ts)
              | Some t => ret t
              end ;;
  end_ts <- match end_ts with
            | None => now <- datetime_now ;;
                      ts <- timestamp now ;;
                      ret (py_int ts)
            | Some t => ret t
            end ;;
  c <- get_self ;;
  response <- requests_post
    {| url := str_of (base_url c) ++ "/getFleetOrders";
       content_type := Some "application/json";
       bearer := Some (access_token c);
       sent := Json (JObj [ ("offset", JInt offset);
                            ("limit", JInt limit);
                            ("company_ids", JArr (map JInt company_ids));
                            ("start_ts", JInt start_ts);
                            ("end_ts", JInt end_ts);
                            ("time_range_filter_type", JStr "price_review") ]) |} ;;
  refreshed <- _refresh_token_if_needed response ;;
  response <- (if refreshed : bool then
                 c <- get_self ;;
                 requests_post
                   {| url := str_of (base_url c) ++ "/getFleetOrders";
                      content_type := Some "application/json";
                      bearer := Some (access_token c);
                      sent := Json (JObj [ ("offset", JInt offset);
                                           ("limit", JInt limit);
                                           ("company_ids", JArr (map JInt company_ids));
                                           ("start_ts", JInt start_ts);
                                           ("end_ts", JInt end_ts);
                                           ("time_range_filter_type", JStr "price_review") ]) |}
               else ret response) ;;
  if negb (status_code response =? 200) then
    raise (ApiError "fleet orders" (status_code response) (text response))
  else
    body <- response_json response ;;
    data <- lift (py_get body "data" (JObj [])) ;;
    orders <- lift (py_get data "orders" (JArr [])) ;;
    items <- lift (py_iter orders) ;;
    mapM (fun order => lift (construct FleetOrder order)) items.

(** Client.get_vehicles *)
Definition get_vehicles (offset limit company_id : Z) (portal_status : portal_arg)
    (start_ts end_ts : option Z) : M (list value) :=
  _ensure_token ;;
  start_ts <- match start_ts with
              | None => now <- datetime_now ;;
                        ts <- timestamp (minus_timedelta now (timedelta_days 1)) ;;
                        ret (py_int ts)
              | Some t => ret t
              end ;;
  end_ts <- match end_ts with
            | None => now <- datetime_now ;;
                      ts <- timestamp now ;;
                      ret (py_int ts)
            | Some t => ret t
            end ;;
  let portal_status_value := portal_status_value portal_status in
  c <- get_self ;;
  response <- requests_post
    {| url := str_of (base_url c) ++ "/getVehicles";
       content_type := Some "application/json";
       bearer := Some (access_token c);
       sent := Json (JObj [ ("offset", JInt offset);
                            ("limit", JInt limit);
                            ("company_id", JInt company_id);
                            ("start_ts", JInt start_ts);
                            ("end_ts", JInt end_ts);
                            ("portal_status", portal_status_value) ]) |} ;;
  refreshed <- _refresh_token_if_needed response ;;
  response <- (if refreshed : bool then
                 c <- get_self ;;
                 requests_post
                   {| url := str_of (base_url c) ++ "/getVehicles";
                      content_type := Some "application/json";
                      bearer := Some (access_token c);
                      sent := Json (JObj [ ("offset", JInt offset);
                                           ("limit", JInt limit);
                                           ("company_id", JInt company_id);
                                           ("start_ts", JInt start_ts);
                                           ("end_ts", JInt end_ts);
                                           ("portal_status", portal_status_value) ]) |}
               else ret response) ;;
  if negb (status_code response =? 200) then
    raise (ApiError "vehicles" (status_code response) (text response))
  else
    body <- response_json response ;;
    data <- lift (py_get body "data" (JObj [])) ;;
    vehicles <- lift (py_get data "vehicles" (JArr [])) ;;
    items <- lift (py_iter vehicles) ;;
    mapM (fun vehicle => lift (construct Vehicle vehicle)) items.

(** Client.get_drivers *)
Definition get_drivers (offset limit company_id : Z) (portal_status : portal_arg)
    (start_ts end_ts : option Z) : M (list value) :=
  _ensure_token ;;
  start_ts <- match start_ts with
              | None => now <- datetime_now ;;
                        ts <- timestamp (minus_timedelta now (timedelta_days 1)) ;;
                        ret (py_int ts)
              | Some t => ret t
              end ;;
  end_ts <- match end_ts with
            | None => now <- datetime_now ;;
                      ts <- timestamp now ;;
                      ret (py_int ts)
            | Some t => ret t
            end ;;
  let portal_status_value := portal_status_value portal_status in
  c <- get_self ;;
  response <- requests_post
    {| url := str_of (base_url c) ++ "/getDrivers";
       content_type := Some "application/json";
       bearer := Some (access_token c);
       sent := Json (JObj [ ("offset", JInt offset);
                            ("limit", JInt limit);
                            ("company_id", JInt company_id);
                            ("start_ts", JInt start_ts);
                            ("end_ts", JInt end_ts);
                            ("portal_status", portal_status_value) ]) |} ;;
  refreshed <- _refresh_token_if_needed response ;;
  response <- (if refreshed : bool then
                 c <- get_self ;;
                 requests_post
                   {| url := str_of (base_url c) ++ "/getDrivers";
                      content_type := Some "application/json";
                      bearer := Some (access_token c);
                      sent := Json (JObj [ ("offset", JInt offset);
                                           ("limit", JInt limit);
                                           ("company_id", JInt company_id);
                                           ("start_ts", JInt start_ts);
                                           ("end_ts", JInt end_ts);
                                           ("portal_status", portal_status_value) ]) |}
               else ret response) ;;
  if negb (status_code response =? 200) then
    raise (ApiError "drivers" (status_code response) (text response))
  else
    body <- response_json response ;;
    data <- lift (py_get body "data" (JObj [])) ;;
    drivers <- lift (py_get data "drivers" (JArr [])) ;;
    items <- lift (py_iter drivers) ;;
    mapM (fun driver => lift (construct Driver driver)) items.

(** Client.get_fleet_state_logs *)
Definition get_fleet_state_logs (offset limit company_id : Z)
    (start_ts end_ts : option Z) : M (list value) :=
  _ensure_token ;;
  start_ts <- match start_ts with
              | None => now <- datetime_now ;;
                        ts <- timestamp (minus_timedelta now (timedelta_days 1)) ;;
                        ret (py_int ts)
              | Some t => ret t
              end ;;
  end_ts <- match end_ts with
            | None => now <- datetime_now ;;
                      ts <- timestamp now ;;
                      ret (py_int ts)
            | Some t => ret t
            end ;;
  c <- get_self ;;
  response <- requests_post
    {| url := str_of (base_url c) ++ "/getFleetStateLogs";
       content_type := Some "application/json";
       bearer := Some (access_token c);
       sent := Json (JObj [ ("offset", JInt offset);
                            ("limit", JInt limit);
                            ("company_id", JInt company_id);
                            ("start_ts", JInt start_ts);
                            ("end_ts", JInt end_ts) ]) |} ;;
  refreshed <- _refresh_token_if_needed response ;;
  response <- (if refreshed : bool then
                 c <- get_self ;;
                 requests_post
                   {| url := str_of (base_url c) ++ "/getFleetStateLogs";
                      content_type := Some "application/json";
                      bearer := Some (access_token c);
                      sent := Json (JObj [ ("offset", JInt offset);
                                           ("limit", JInt limit);
                                           ("company_id", JInt company_id);
                                           ("start_ts", JInt start_ts);
                                           ("end_ts", JInt end_ts) ]) |}
               else ret response) ;;
  if negb (status_code response =? 200) then
    raise (ApiError "fleet state logs" (status_code response) (text response))
  else
    body <- response_json response ;;
    data <- lift (py_get body "data" (JObj [])) ;;
    state_logs <- lift (py_get data "state_logs" (JArr [])) ;;
    items <- lift (py_iter state_logs) ;;
    mapM (fun log => lift (construct FleetStateLog log)) items.

(** [create_client()]: a fresh instance, initialised in the given world. *)
Definition create_client (w : World) : result Client * World :=
  let blank := {| client_id := None; client_secret := None;
                  base_url := None; access_token := JNull |} in
  match __init__ {| self := blank; world := w |} with
  | (inr _, st) => (inr (self st), world st)
  | (inl e, st) => (inl e, world st)
  end.

(** ** The four resource methods as one family

    A [call] is one of the four methods with its arguments; [invoke]
    dispatches to the method.  The remaining definitions name the pieces
    the four bodies have in common, to state properties of all of them at
    once; [invoke_template] shows the bodies are made of these pieces. *)
Inductive call : Type :=
| GetFleetOrders (offset limit : Z) (company_ids : list Z)
    (start_ts end_ts : option Z)
| GetVehicles (offset limit company_id : Z) (portal_status : portal_arg)
    (start_ts end_ts : option Z)
| GetDrivers (offset limit company_id : Z) (portal_status : portal_arg)
    (start_ts end_ts : option Z)
| GetFleetStateLogs (offset limit company_id : Z)
    (start_ts end_ts : option Z).

Definition invoke (k : call) : M (list value) :=
  match k with
  | GetFleetOrders o l cs s e => get_fleet_orders o l cs s e
  | GetVehicles o l c p s e => get_vehicles o l c p s e
  | GetDrivers o l c p s e => get_drivers o l c p s e
  | GetFleetStateLogs o l c s e => get_fleet_state_logs o l c s e
  end.

Definition start_arg (k : call) : option Z :=
  match k with
  | GetFleetOrders _ _ _ s _ | GetVehicles _ _ _ _ s _
  | GetDrivers _ _ _ _ s _ | GetFleetStateLogs _ _ _ s _ => s
  end.

Definition end_arg (k : call) : option Z :=
  match k with
  | GetFleetOrders _ _ _ _ e | GetVehicles _ _ _ _ _ e
  | GetDrivers _ _ _ _ _ e | GetFleetStateLogs _ _ _ _ e => e
  end.

(** Endpoint path, name in the error message, list field of the
    envelope, and record class of each method. *)
Definition path_of (k : call) : string :=
  match k with
  | GetFleetOrders _ _ _ _ _ => "/getFleetOrders"
  | GetVehicles _ _ _ _ _ _ => "/getVehicles"
  | GetDrivers _ _ _ _ _ _ => "/getDrivers"
  | GetFleetStateLogs _ _ _ _ _ => "/getFleetStateLogs"
  end.

Definition what_of (k : call) : string :=
  match k with
  | GetFleetOrders _ _ _ _ _ => "fleet orders"
  | GetVehicles _ _ _ _ _ _ => "vehicles"
  | GetDrivers _ _ _ _ _ _ => "drivers"
  | GetFleetStateLogs _ _ _ _ _ => "fleet state logs"
  end.

Definition list_field (k : call) : string :=
  match k with
  | GetFleetOrders _ _ _ _ _ => "orders"
  | GetVehicles _ _ _ _ _ _ => "vehicles"
  | GetDrivers _ _ _ _ _ _ => "drivers"
  | GetFleetStateLogs _ _ _ _ _ => "state_logs"
  end.

Definition model_of (k : call) : ftype :=
  match k with
  | GetFleetOrders _ _ _ _ _ => FleetOrder
  | GetVehicles _ _ _ _ _ _ => Vehicle
  | GetDrivers _ _ _ _ _ _ => Driver
  | GetFleetStateLogs _ _ _ _ _ => FleetStateLog
  end.

(** The [json=] argument, once the time window is settled. *)
Definition body_of (k : call) (start_ts end_ts : Z) : json :=
  match k with
  | GetFleetOrders o l cs _ _ =>
      JObj [ ("offset", JInt o); ("limit", JInt l);
             ("company_ids", JArr (map JInt cs));
             ("start_ts", JInt start_ts); ("end_ts", JInt end_ts);
             ("time_range_filter_type", JStr "price_review") ]
  | GetVehicles o l c p _ _ | GetDrivers o l c p _ _ =>
      JObj [ ("offset", JInt o); ("limit", JInt l); ("company_id", JInt c);
             ("start_ts", JInt start_ts); ("end_ts", JInt end_ts);
             ("portal_status", portal_status_value p) ]
  | GetFleetStateLogs o l c _ _ =>
      JObj [ ("offset", JInt o); ("limit", JInt l); ("company_id", JInt c);
             ("start_ts", JInt start_ts); ("end_ts", JInt end_ts) ]
  end.

(** The request a method issues for a client in a given state. *)
Definition request_of (k : call) (c : Client) (start_ts end_ts : Z) : Request :=
  {| url := str_of (base_url c) ++ path_of k;
     content_type := Some "application/json";
     bearer := Some (access_token c);
     sent := Json (body_of k start_ts end_ts) |}.

(** The request [get_access_token] issues. *)
Definition token_request (c : Client) : Request :=
  {| url := "https://oidc.bolt.eu/token";
     content_type := None;
     bearer := None;
     sent := Form [ ("client_id", client_id c);
                    ("client_secret", client_secret c);
                    ("grant_type", Some "client_credentials");
                    ("scope", Some "fleet-integration:api") ] |}.

Definition default_start (start_ts : option Z) : M Z :=
  match start_ts with
  | None => now <- datetime_now ;;
            ts <- timestamp (minus_timedelta now (timedelta_days 1)) ;;
            ret (py_int ts)
  | Some t => ret t
  end.

Definition default_end (end_ts : option Z) : M Z :=
  match end_ts with
  | None => now <- datetime_now ;;
            ts <- timestamp now ;;
            ret (py_int ts)
  | Some t => ret t
  end.

Definition attempt (k : call) (start_ts end_ts : Z) : M Response :=
  c <- get_self ;; requests_post (request_of k c start_ts end_ts).

(** From the last response to the returned records. *)
Definition finish (k : call) (response : Response) : M (list value) :=
  if negb (status_code response =? 200) then
    raise (ApiError (what_of k) (status_code response) (text response))
  else
    body <- response_json response ;;
    data <- lift (py_get body "data" (JObj [])) ;;
    listed <- lift (py_get data (list_field k) (JArr [])) ;;
    items <- lift (py_iter listed) ;;
    mapM (fun item => lift (construct (model_of k) item)) items.

(** Everything up to the status check: the response that is examined. *)
Definition exchange (k : call) : M Response :=
  _ensure_token ;;
  start_ts <- default_start (start_arg k) ;;
  end_ts <- default_end (end_arg k) ;;
  response <- attempt k start_ts end_ts ;;
  refreshed <- _refresh_token_if_needed response ;;
  if refreshed : bool then attempt k start_ts end_ts else ret response.

(** What [get_access_token] makes of the response it receives. *)
Definition token_of_response (r : Response) : result json :=
  if negb (status_code r =? 200) then inl (AuthError (status_code r) (text r))
  else match json_of r with
       | None => inl JSONDecodeError
       | Some body =>
           match py_get body "access_token" JNull with
           | inl e => inl e
           | inr token => if negb (truthy token) then inl AuthErrorNoToken
                          else inr token
           end
       end.

(** The specification's reading of the refresh test: status 401, or a
    JSON body with a [code] field equal to 503. *)
Definition needs_refresh (r : Response) : bool :=
  (status_code r =? 401)
  || match json_of r with
     | Some (JObj kv) =>
         match dict_get kv "code" with
         | Some c => py_eq_int c 503
         | None => false
         end
     | _ => false
     end.

(** State updates used to describe runs. *)
Definition with_token (tok : json) (st : State) : State :=
  {| self := {| client_id := client_id (self st);
                client_secret := client_secret (self st);
                base_url := base_url (self st);
                access_token := tok |};
     world := world st |}.

Definition posted (rq : Request) (rest : list Response) (st : State) : State :=
  {| self := self st;
     world := {| inbox := rest; outbox := outbox (world st) ++ [rq];
                 clock := clock (world st); reads := reads (world st);
                 local_to_posix := local_to_posix (world st);
                 environ := environ (world st) |} |}.

Definition ticked (st : State) : State :=
  {| self := self st;
     world := {| inbox := inbox (world st); outbox := outbox (world st);
                 clock := clock (world st); reads := S (reads (world st));
                 local_to_posix := local_to_posix (world st);
                 environ := environ (world st) |} |}.

Definition is_token_request (rq : Request) : bool :=
  (url rq =? "https://oidc.bolt.eu/token")%string
  && match bearer rq with None => true | Some _ => false end.

Definition is_resource_request (rq : Request) : bool :=
  match sent rq with Json _ => true | Form _ => false end.

(** The requests issued between two states of a run. *)
Definition issued (st st' : State) : list Request :=
  skipn (List.length (outbox (world st))) (outbox (world st')).

(** Fetch a token and store it: the two statements both branches of
    [_refresh_token_if_needed] share. *)
Definition refetch (st : State) : result bool * State :=
  match get_access_token st with
  | (inr token, st') => (inr true, with_token token st')
  | (inl e, st') => (inl e, st')
  end.

(** What token handling may change between two states: the stored token
    (never from a truthy to a falsy one), and the traffic, which consists
    of this client's token request, any number of times.  The credentials, the base URL, the clock and
    the environment stay as they are. *)
Definition token_traffic (st st' : State) : Prop :=
  client_id (self st') = client_id (self st)
  /\ client_secret (self st') = client_secret (self st)
  /\ base_url (self st') = base_url (self st)
  /\ clock (world st') = clock (world st)
  /\ reads (world st') = reads (world st)
  /\ environ (world st') = environ (world st)
  /\ (truthy (access_token (self st)) = true ->
      truthy (access_token (self st')) = true)
  /\ exists reqs,
       outbox (world st') = (outbox (world st) ++ reqs)%list
       /\ Forall (fun rq => rq = token_request (self st)) reqs.

(** [int(dt.timestamp())] in the zone of the world. *)
Definition unix_seconds (w : World) (dt : datetime) : Z :=
  py_int (timestamp_float (local_to_posix w) dt).

(** The time window a call settles on, computed from the clock readings
    that follow the current one: a missing [start_ts] takes the first
    reading, a missing [end_ts] the next one. *)
Definition window (k : call) (w : World) : Z * Z :=
  match start_arg k, end_arg k with
  | None, None =>
      (unix_seconds w (minus_timedelta (clock w (reads w)) (timedelta_days 1)),
       unix_seconds w (clock w (S (reads w))))
  | None, Some e =>
      (unix_seconds w (minus_timedelta (clock w (reads w)) (timedelta_days 1)), e)
  | Some s, None => (s, unix_seconds w (clock w (reads w)))
  | Some s, Some e => (s, e)
  end.

(** How many times a call reads the clock. *)
Definition clock_reads (k : call) : nat :=
  (match start_arg k with None => 1 | Some _ => 0 end
   + match end_arg k with None => 1 | Some _ => 0 end)%nat.

(** The list comprehension over the items, without the state. *)
Fixpoint construct_all (model : ftype) (items : list json) : result (list value) :=
  match items with
  | [] => inr []
  | item :: rest =>
      match construct model item with
      | inl e => inl e
      | inr v =>
          match construct_all model rest with
          | inl e => inl e
          | inr vs => inr (v :: vs)
          end
      end
  end.

(** What a method makes of the response it examines (lines after the
    retry): the state plays no part in it. *)
Definition records_of (k : call) (r : Response) : result (list value) :=
  if negb (status_code r =? 200) then
    inl (ApiError (what_of k) (status_code r) (text r))
  else
    match json_of r with
    | None => inl JSONDecodeError
    | Some body =>
        match py_get body "data" (JObj []) with
        | inl e => inl e
        | inr data =>
            match py_get data (list_field k) (JArr []) with
            | inl e => inl e
            | inr listed =>
                match py_iter listed with
                | inl e => inl e
                | inr items => construct_all (model_of k) items
                end
            end
        end
    end.

(** ** Sample data for concrete runs *)
Module Sample.

Definition client (token : json) : Client :=
  {| client_id := Some "fleet-app";
     client_secret := Some "s3cret";
     base_url := Some "https://fleet.example/api";
     access_token := token |}.

(** A world whose transport will deliver [rs], whose zone is UTC and
    whose clock shows 14 November 2023, 22:13:20, advancing by the given
    step (in microseconds) at every reading. *)
Definition world_of (rs : list Response) (step : Z) : World :=
  {| inbox := rs;
     outbox := [];
     clock := fun k => {| wall := 1700000000000000 + step * Z.of_nat k;
                          fold := false |};
     reads := 0;
     local_to_posix := fun seconds _ => seconds;
     environ := [ ("BOLT_CLIENT_ID", "fleet-app");
                  ("BOLT_CLIENT_SECRET", "s3cret");
                  ("BOLT_API_URL", "https://fleet.example/api") ] |}.

Definition state (token : json) (rs : list Response) : State :=
  {| self := client token; world := world_of rs 1 |}.

(** The token endpoint granting [token]. *)
Definition grant (token : string) : Response :=
  {| status_code := 200;
     text := "token body";
     json_of := Some (JObj [("access_token", JStr token);
                            ("expires_in", JInt 600)]) |}.

Definition server_error : Response :=
  {| status_code := 500; text := "oops"; json_of := None |}.

Definition unauthorized : Response :=
  {| status_code := 401;
     text := "unauthorized";
     json_of := Some (JObj [("message", JStr "unauthorized")]) |}.

Definition unauthorized_html : Response :=
  {| status_code := 401; text := "<html>401</html>"; json_of := None |}.

(** The vendor's expired-token signal inside a 200. *)
Definition expired_in_200 : Response :=
  {| status_code := 200;
     text := "code 503";
     json_of := Some (JObj [("code", JInt 503)]) |}.

Definition ok (body : json) : Response :=
  {| status_code := 200; text := "..."; json_of := Some body |}.

Definition envelope (field : string) (items : list json) : json :=
  JObj [("data", JObj [(field, JArr items)])].

Definition uuid_a : string := "123e4567-e89b-12d3-a456-426614174000".

Definition vehicle_item : json :=
  JObj [ ("id", JInt 7); ("model", JStr "Toyota Corolla"); ("year", JInt 2021);
         ("reg_number", JStr "123ABC"); ("uuid", JStr uuid_a);
         ("state", JStr "active") ].

Definition vehicle_record : value :=
  VModel "Vehicle"
    [ ("id", VInt 7); ("model", VStr "Toyota Corolla"); ("year", VInt 2021);
      ("reg_number", VStr "123ABC");
      ("uuid", VUUID 24249434048109030647017182301789831168);
      ("state", VStatus active) ].

(** A call of [get_vehicles] leaving the time window to the defaults,
    and a transport that answers 401, grants a token, then answers
    with one vehicle. *)
Definition vehicles_call : call :=
  GetVehicles 0 10 42 (PEnum active) None None.

Definition retry_script : list Response :=
  [ unauthorized; grant "new"; ok (envelope "vehicles" [vehicle_item]) ].


(** The zone of Tallinn around the end of summer time in 2023: wall
    times before 03:00 on 29 October are three hours ahead of UTC, those
    from 04:00 on two hours, and the hour in between comes twice, first
    (fold 0) three hours ahead and then (fold 1) two. *)
Definition tallinn (seconds : Z) (second_pass : bool) : Z :=
  if seconds <? 1698548400 then seconds - 10800
  else if seconds <? 1698552000
       then (if second_pass then seconds - 7200 else seconds - 10800)
       else seconds - 7200.

(** A client holding a token in Tallinn, with a clock as in [state_at]. *)
Definition state_in_tallinn (t0 : Z) (rs : list Response) : State :=
  {| self := client (JStr "tok");
     world := {| inbox := rs; outbox := [];
                 clock := fun k => {| wall := t0 + Z.of_nat k; fold := false |};
                 reads := 0;
                 local_to_posix := tallinn;
                 environ := [] |} |}.

(** The vehicle item without its [model]. *)
Definition vehicle_item_no_model : list (string * json) :=
  [ ("id", JInt 7); ("year", JInt 2021); ("reg_number", JStr "123ABC");
    ("uuid", JStr uuid_a); ("state", JStr "active") ].

Definition vehicle_item_fields : list (string * json) :=
  [ ("id", JInt 7); ("model", JStr "Toyota Corolla"); ("year", JInt 2021);
    ("reg_number", JStr "123ABC"); ("uuid", JStr uuid_a);
    ("state", JStr "active") ].

Definition half : float := S754_finite false 4503599627370496 (-53).

(** An order with one stop and a price, every field of the order given. *)
Definition order_item : json :=
  JObj [ ("order_reference", JStr "R-1"); ("driver_name", JStr "Ann");
         ("payment_method", JStr "cash"); ("driver_uuid", JStr uuid_a);
         ("driver_phone", JStr "+3725550000"); ("partner_uuid", JStr uuid_a);
         ("payment_confirmed_timestamp", JInt 1700000100);
         ("order_created_timestamp", JInt 1700000000);
         ("order_status", JStr "finished"); ("vehicle_model", JStr "Kia Ceed");
         ("vehicle_license_plate", JStr "123ABC");
         ("price_review_reason", JStr "none");
         ("pickup_address", JStr "Main St 1");
         ("ride_distance", JInt 1200);
         ("order_accepted_timestamp", JInt 1700000010);
         ("order_pickup_timestamp", JInt 1700000020);
         ("order_drop_off_timestamp", JInt 1700000090);
         ("order_finished_timestamp", JInt 1700000095);
         ("order_stops", JArr [JObj [("lat", JFloat half); ("type", JStr "pickup")]]);
         ("order_price", JObj [("tip", JFloat half); ("ride_price", JInt 12)]) ].

End Sample.

(** The request of call [k] started in state [st], under a given token:
    the base URL and the time window are those of [st]. *)
Definition resource_request (k : call) (st : State) (token : json) : Request :=
  {| url := str_of (base_url (self st)) ++ path_of k;
     content_type := Some "application/json";
     bearer := Some token;
     sent := Json (body_of k (fst (window k (world st)))
                             (snd (window k (world st)))) |}.

(** The traffic of one run of a resource method from [st] to [st']:
    token requests (when no token was held), then possibly the resource
    request, then token requests (the refresh), then possibly the
    resource request once more, under the token held at the end. *)
Definition method_traffic (k : call) (st st' : State) : Prop :=
  exists toks0 tail,
    outbox (world st') = (outbox (world st) ++ toks0 ++ tail)%list
    /\ Forall (fun rq => rq = token_request (self st)) toks0
    /\ base_url (self st') = base_url (self st)
    /\ (truthy (access_token (self st)) = true ->
        truthy (access_token (self st')) = true)
    /\ (reads (world st') = reads (world st)
        \/ reads (world st') = (clock_reads k + reads (world st))%nat)
    /\ (tail = []
        \/ exists token1 toks1,
             Forall (fun rq => rq = token_request (self st)) toks1
             /\ (truthy (access_token (self st)) = true ->
                 token1 = access_token (self st) /\ toks0 = [])
             /\ (tail = resource_request k st token1 :: toks1
                 \/ tail = (resource_request k st token1 :: toks1
                            ++ [resource_request k st (access_token (self st'))])%list)).

(** The resource requests issued between two states. *)
Definition resource_requests (st st' : State) : list Request :=
  filter is_resource_request (issued st st').

(** Where the stored token can come from: between two states of a run
    the transport has delivered a prefix of the inbox, and the token is
    the one held before or one that [get_access_token] drew from a
    delivered response. *)
Definition token_origin (st st' : State) : Prop :=
  (exists used, inbox (world st) = (used ++ inbox (world st'))%list)
  /\ (access_token (self st') = access_token (self st)
      \/ exists r, In r (inbox (world st))
                   /\ token_of_response r = inr (access_token (self st'))).

(** The operations of a client that touch its token, and the state each
    leaves behind, whether it returns or raises. *)
Inductive operation : Type :=
| Ensure
| Fetch
| Refresh (r : Response)
| Call (k : call).

Definition after (op : operation) (st : State) : State :=
  match op with
  | Ensure => snd (_ensure_token st)
  | Fetch => snd (get_access_token st)
  | Refresh r => snd (_refresh_token_if_needed r st)
  | Call k => snd (invoke k st)
  end.

(** A non-empty string. *)
Definition nonempty_string (v : json) : Prop :=
  exists s, v = JStr s /\ s <> EmptyString.

(** The token endpoint keeps to its declared type: whatever token
    [get_access_token] draws from one of the responses is a string. *)
Definition grants_strings (rs : list Response) : Prop :=
  forall r v, In r rs -> token_of_response r = inr v -> exists s, v = JStr s.

(** The specification's statement about the default window: in the
    requests of the call, [start_ts] is [end_ts] minus 86400. *)
Definition window_is_one_day (k : call) (st : State) : Prop :=
  forall q kv s e,
    In q (resource_requests st (snd (invoke k st))) ->
    sent q = Json (JObj kv) ->
    dict_get kv "start_ts" = Some (JInt s) ->
    dict_get kv "end_ts" = Some (JInt e) ->
    s = e - 86400.

(** The specification's statement about the envelope: a 200 response
    never makes the call raise because of the shape of its [data]. *)
Definition data_wrapper_is_lenient (k : call) (r : Response) : Prop :=
  status_code r = 200 ->
  forall kv, json_of r = Some (JObj kv) ->
  (forall d, dict_get kv "data" <> Some (JObj d)) ->
  records_of k r = inr [].

(** The record classes of [bolt_schemas.py], and the parts of a class. *)
Definition record_types : list ftype :=
  [Vehicle; Driver; FleetStateLog; FleetOrder; OrderStop; OrderPrice].

Definition title_of (m : ftype) : string :=
  match m with TModel title _ => title | _ => EmptyString end.

Definition fields_of (m : ftype) : list field :=
  match m with TModel _ fs => fs | _ => [] end.

(** The part of a state that no method assigns: the credentials and the
    base URL of the client, the clock and the environment of the world. *)
Definition same_config (st st' : State) : Prop :=
  client_id (self st') = client_id (self st)
  /\ client_secret (self st') = client_secret (self st)
  /\ base_url (self st') = base_url (self st)
  /\ clock (world st') = clock (world st)
  /\ environ (world st') = environ (world st).

(** The outbox has been extended by at most [n] requests. *)
Definition grows_by (n : nat) (st st' : State) : Prop :=
  exists l, outbox (world st') = (outbox (world st) ++ l)%list
            /\ (List.length l <= n)%nat.

(** The attributes [__init__] sets before it asks for a token. *)
Definition fresh_client (w : World) : Client :=
  {| client_id := dict_get (environ w) "BOLT_CLIENT_ID";
     client_secret := dict_get (environ w) "BOLT_CLIENT_SECRET";
     base_url := dict_get (environ w) "BOLT_API_URL";
     access_token := JNull |}.

(** The float timestamp of [dt] is exact to the second: truncated, it
    is the POSIX second of the whole seconds of [dt].  (The sum
    [seconds + microsecond / 1e6] is rounded to binary64, which keeps
    the microseconds below the next second for seconds below 2^33.) *)
Definition timestamp_exact (w : World) (dt : datetime) : Prop :=
  unix_seconds w dt = local_to_posix w (wall_seconds dt) (fold dt).

(** The UTC offset the zone applies to a naive datetime, in seconds. *)
Definition utc_offset (w : World) (dt : datetime) : Z :=
  wall_seconds dt - local_to_posix w (wall_seconds dt) (fold dt).


(** The body of a request carries this portal status. *)
Definition carries_portal_status (q : Request) (v : json) : Prop :=
  exists kv, sent q = Json (JObj kv) /\ dict_get kv "portal_status" = Some v.

(** * Properties *)

(** *** Shape of the runs *)

(** Re-association of the seven steps of a resource method. *)
Lemma bind_regroup {X} (a : M unit) (b c : M Z) (d : Z -> Z -> M Response)
    (r : Response -> M bool) (f : Response -> M X) (st : State) :
  (a ;; s <- b ;; e <- c ;; resp <- d s e ;; refreshed <- r resp ;;
   resp' <- (if refreshed : bool then d s e else ret resp) ;; f resp') st
  = (resp' <- (a ;; s <- b ;; e <- c ;; resp <- d s e ;; refreshed <- r resp ;;
               if refreshed : bool then d s e else ret resp) ;; f resp') st.
Proof.
  unfold bind.
  destruct (a st) as [[x|[]] st1]; [reflexivity|].
  destruct (b st1) as [[x|s] st2]; [reflexivity|].
  destruct (c st2) as [[x|e] st3]; [reflexivity|].
  destruct (d s e st3) as [[x|resp] st4]; [reflexivity|].
  destruct (r resp st4) as [[x|refreshed] st5]; reflexivity.
Qed.

Lemma invoke_template (k : call) (st : State) :
  invoke k st = (response <- exchange k ;; finish k response) st.
Proof.
  unfold exchange.
  rewrite <- (bind_regroup _ensure_token (default_start (start_arg k))
                (default_end (end_arg k)) (attempt k)
                _refresh_token_if_needed (finish k) st).
  destruct k; reflexivity.
Qed.

Lemma requests_post_run (rq : Request) (st : State) :
  requests_post rq st =
  match inbox (world st) with
  | [] => (inl ConnectionError, posted rq [] st)
  | r :: rest => (inr r, posted rq rest st)
  end.
Proof. unfold requests_post, posted. destruct (inbox (world st)); reflexivity. Qed.

(** [get_access_token] sends one request, consumes one response, and
    returns what [token_of_response] computes from it. *)
Lemma get_access_token_run (st : State) :
  get_access_token st =
  match inbox (world st) with
  | [] => (inl ConnectionError, posted (token_request (self st)) [] st)
  | r :: rest => (token_of_response r, posted (token_request (self st)) rest st)
  end.
Proof.
  unfold get_access_token, bind, get_self.
  fold (token_request (self st)).
  rewrite requests_post_run.
  destruct (inbox (world st)) as [|r rest]; [reflexivity|].
  unfold token_of_response, response_json, lift, raise, ret.
  destruct (negb (status_code r =? 200)); [reflexivity|].
  destruct (json_of r) as [body|]; [|reflexivity].
  destruct (py_get body "access_token" JNull) as [e|token]; [reflexivity|].
  destruct (negb (truthy token)); reflexivity.
Qed.

Lemma _ensure_token_run (st : State) :
  _ensure_token st =
  if truthy (access_token (self st)) then (inr tt, st)
  else match get_access_token st with
       | (inr token, st') => (inr tt, with_token token st')
       | (inl e, st') => (inl e, st')
       end.
Proof.
  unfold _ensure_token, bind, get_self.
  generalize get_access_token; intro get_access_token.
  destruct (truthy (access_token (self st))); cbn; [reflexivity|].
  destruct (get_access_token st) as [[e|token] st']; reflexivity.
Qed.

(** The complete behaviour of [_refresh_token_if_needed]: nothing happens
    unless the response asks for a refresh; a fetch that fails inside the
    [try] block lands in the handler, which fetches again on a 401 and
    otherwise lets the method answer [False]. *)
Lemma _refresh_token_if_needed_run (r : Response) (st : State) :
  _refresh_token_if_needed r st =
  if needs_refresh r then
    match json_of r with
    | None => refetch st
    | Some _ =>
        match get_access_token st with
        | (inr token, st') => (inr true, with_token token st')
        | (inl _, st') =>
            if status_code r =? 401 then refetch st' else (inr false, st')
        end
    end
  else (inr false, st).
Proof.
  unfold _refresh_token_if_needed, needs_refresh, try_except, refetch, bind,
    response_json, lift, raise, ret, set_access_token, with_token.
  generalize get_access_token; intro get_access_token.
  destruct (json_of r) as [d|].
  - destruct (status_code r =? 401) eqn:E401; cbn.
    + destruct (get_access_token st) as [[e|token] st']; cbn; [|reflexivity].
      destruct (get_access_token st') as [[e'|token'] st'']; reflexivity.
    + destruct d; cbn; try reflexivity.
      destruct (dict_get kv "code") as [c|]; cbn; [|reflexivity].
      destruct (py_eq_int c 503); [|reflexivity].
      destruct (get_access_token st) as [[e|token] st']; reflexivity.
  - destruct (status_code r =? 401); cbn; [|reflexivity].
    destruct (get_access_token st) as [[e|token] st']; reflexivity.
Qed.

(** *** Token handling leaves everything but the token and the traffic *)

Lemma token_traffic_refl (st : State) : token_traffic st st.
Proof.
  unfold token_traffic; repeat split; auto.
  exists []; split; [now rewrite app_nil_r | constructor].
Qed.

Lemma token_traffic_trans (a b c : State) :
  token_traffic a b -> token_traffic b c -> token_traffic a c.
Proof.
  intros (A1 & A2 & A3 & A4 & A5 & A6 & A7 & ra & A8 & A9)
         (B1 & B2 & B3 & B4 & B5 & B6 & B7 & rb & B8 & B9).
  unfold token_traffic; repeat split; try congruence; auto.
  exists (ra ++ rb)%list; split.
  - rewrite B8, A8, app_assoc; reflexivity.
  - apply Forall_app; split; [assumption|].
    assert (E : token_request (self b) = token_request (self a))
      by (unfold token_request; congruence).
    rewrite E in B9; exact B9.
Qed.

Lemma token_of_response_truthy (r : Response) (token : json) :
  token_of_response r = inr token -> truthy token = true.
Proof.
  unfold token_of_response.
  destruct (negb (status_code r =? 200)); [discriminate|].
  destruct (json_of r) as [body|]; [|discriminate].
  destruct (py_get body "access_token" JNull) as [e|t]; [discriminate|].
  destruct (truthy t) eqn:T; cbn; [|discriminate].
  intros [= <-]; exact T.
Qed.

Lemma get_access_token_truthy (st st' : State) (token : json) :
  get_access_token st = (inr token, st') -> truthy token = true.
Proof.
  rewrite get_access_token_run.
  destruct (inbox (world st)) as [|r rest]; [discriminate|].
  intros [= H _]; eapply token_of_response_truthy; eassumption.
Qed.

Lemma get_access_token_traffic (st st' : State) (x : result json) :
  get_access_token st = (x, st') ->
  token_traffic st st' /\ self st' = self st.
Proof.
  rewrite get_access_token_run.
  assert (T : forall rest, token_traffic st (posted (token_request (self st)) rest st)).
  { intro rest; unfold token_traffic, posted; cbn; repeat split; auto.
    eexists; split; [reflexivity|]. repeat constructor. }
  destruct (inbox (world st)) as [|r rest]; intros [= _ <-]; split; auto.
Qed.

Lemma with_token_traffic (a b : State) (token : json) :
  token_traffic a b -> truthy token = true -> token_traffic a (with_token token b).
Proof.
  intros (A1 & A2 & A3 & A4 & A5 & A6 & A7 & A8) T.
  unfold token_traffic, with_token; cbn; repeat split; auto.
Qed.

Lemma refetch_traffic (st st' : State) (x : result bool) :
  refetch st = (x, st') -> token_traffic st st'.
Proof.
  unfold refetch.
  destruct (get_access_token st) as [[e|token] st1] eqn:G.
  - intros [= _ <-]. eapply get_access_token_traffic; eassumption.
  - intros [= _ <-]. apply with_token_traffic.
    + eapply get_access_token_traffic; eassumption.
    + eapply get_access_token_truthy; eassumption.
Qed.

Lemma _ensure_token_traffic (st st' : State) (x : result unit) :
  _ensure_token st = (x, st') -> token_traffic st st'.
Proof.
  rewrite _ensure_token_run.
  destruct (truthy (access_token (self st))).
  - intros [= _ <-]; apply token_traffic_refl.
  - destruct (get_access_token st) as [[e|token] st1] eqn:G.
    + intros [= _ <-]. eapply get_access_token_traffic; eassumption.
    + intros [= _ <-]. apply with_token_traffic.
      * eapply get_access_token_traffic; eassumption.
      * eapply get_access_token_truthy; eassumption.
Qed.

Lemma _refresh_token_if_needed_traffic (r : Response) (st st' : State)
    (x : result bool) :
  _refresh_token_if_needed r st = (x, st') -> token_traffic st st'.
Proof.
  rewrite _refresh_token_if_needed_run.
  destruct (needs_refresh r); [|intros [= _ <-]; apply token_traffic_refl].
  destruct (json_of r) as [d|]; [|apply refetch_traffic].
  destruct (get_access_token st) as [[e|token] st1] eqn:G.
  - pose proof (proj1 (get_access_token_traffic _ _ _ G)) as T1.
    destruct (status_code r =? 401).
    + intro R; apply refetch_traffic in R.
      eapply token_traffic_trans; eassumption.
    + intros [= _ <-]; exact T1.
  - intros [= _ <-]. apply with_token_traffic.
    + eapply get_access_token_traffic; eassumption.
    + eapply get_access_token_truthy; eassumption.
Qed.

(** *** The requests of a resource method *)

Lemma defaults_run {X} (k : call) (K : Z -> Z -> M X) (st : State) :
  (s <- default_start (start_arg k) ;; e <- default_end (end_arg k) ;; K s e) st
  = K (fst (window k (world st))) (snd (window k (world st)))
      (Nat.iter (clock_reads k) ticked st).
Proof.
  unfold window, clock_reads, default_start, default_end.
  destruct (start_arg k), (end_arg k); reflexivity.
Qed.

Lemma ticked_iter_self (n : nat) (st : State) :
  self (Nat.iter n ticked st) = self st.
Proof. induction n; cbn; auto. Qed.

Lemma ticked_iter_world (n : nat) (st : State) :
  inbox (world (Nat.iter n ticked st)) = inbox (world st)
  /\ outbox (world (Nat.iter n ticked st)) = outbox (world st)
  /\ clock (world (Nat.iter n ticked st)) = clock (world st)
  /\ environ (world (Nat.iter n ticked st)) = environ (world st).
Proof. induction n; cbn; auto. Qed.

Lemma ticked_iter_reads (n : nat) (st : State) :
  reads (world (Nat.iter n ticked st)) = (n + reads (world st))%nat.
Proof. induction n; cbn; auto. Qed.

Lemma attempt_run (k : call) (s e : Z) (st : State) :
  attempt k s e st =
  match inbox (world st) with
  | [] => (inl ConnectionError, posted (request_of k (self st) s e) [] st)
  | r :: rest => (inr r, posted (request_of k (self st) s e) rest st)
  end.
Proof. unfold attempt, bind, get_self. apply requests_post_run. Qed.

Lemma mapM_construct (model : ftype) (items : list json) (st : State) :
  mapM (fun item => lift (construct model item)) items st
  = (construct_all model items, st).
Proof.
  induction items as [|item rest IH]; cbn; [reflexivity|].
  unfold bind. rewrite IH. unfold lift.
  destruct (construct model item) as [e|v]; [reflexivity|].
  destruct (construct_all model rest); reflexivity.
Qed.

Lemma finish_run (k : call) (r : Response) (st : State) :
  finish k r st = (records_of k r, st).
Proof.
  unfold finish, records_of, response_json, bind, lift, raise, ret.
  destruct (negb (status_code r =? 200)); [reflexivity|].
  destruct (json_of r) as [body|]; [|reflexivity].
  destruct (py_get body "data" (JObj [])) as [e|data]; [reflexivity|].
  destruct (py_get data (list_field k) (JArr [])) as [e|listed]; [reflexivity|].
  destruct (py_iter listed) as [e|items]; [reflexivity|].
  apply mapM_construct.
Qed.

Lemma exchange_run (k : call) (st : State) :
  exchange k st =
  match _ensure_token st with
  | (inl x, st1) => (inl x, st1)
  | (inr _, st1) =>
      let s := fst (window k (world st1)) in
      let e := snd (window k (world st1)) in
      match attempt k s e (Nat.iter (clock_reads k) ticked st1) with
      | (inl x, st3) => (inl x, st3)
      | (inr r1, st3) =>
          match _refresh_token_if_needed r1 st3 with
          | (inl x, st4) => (inl x, st4)
          | (inr true, st4) => attempt k s e st4
          | (inr false, st4) => (inr r1, st4)
          end
      end
  end.
Proof.
  unfold exchange. unfold bind at 1.
  destruct (_ensure_token st) as [[x|[]] st1]; [reflexivity|].
  rewrite (defaults_run k (fun s e =>
    response <- attempt k s e ;;
    refreshed <- _refresh_token_if_needed response ;;
    if refreshed : bool then attempt k s e else ret response)).
  cbv zeta. unfold bind.
  destruct (attempt k _ _ _) as [[x|r1] st3]; [reflexivity|].
  destruct (_refresh_token_if_needed r1 st3) as [[x|[]] st4]; reflexivity.
Qed.

(** A method's outcome is that of the exchange, followed by the reading
    of the response, which leaves the state alone. *)
Lemma invoke_run (k : call) (st : State) :
  invoke k st =
  match exchange k st with
  | (inl x, st') => (inl x, st')
  | (inr r, st') => (records_of k r, st')
  end.
Proof.
  rewrite invoke_template. unfold bind.
  destruct (exchange k st) as [[x|r] st']; [reflexivity|apply finish_run].
Qed.

(** ** The token fetch *)

Lemma truthy_str (s : string) : truthy (JStr s) = true <-> s <> EmptyString.
Proof.
  cbn. destruct (String.eqb_spec s EmptyString); cbn; split; congruence.
Qed.

(** C3.  [get_access_token], on the response [r] the token endpoint
    gives: a status other than 200 raises the error that carries the
    status and the body; a 200 whose JSON object has no [access_token]
    raises the no-token error; a field that is present is returned when
    it is truthy (a non-empty string is returned as that string) and
    raises the no-token error otherwise.  The client object is left
    untouched: the only effect is the request put on the wire, built from
    the two credentials, and the response taken from it. *)
Theorem get_access_token_contract (st : State) (r : Response) (rest : list Response) :
  inbox (world st) = r :: rest ->
  let out := get_access_token st in
  (status_code r <> 200 -> fst out = inl (AuthError (status_code r) (text r)))
  /\ (forall kv, status_code r = 200 -> json_of r = Some (JObj kv) ->
        dict_get kv "access_token" = None -> fst out = inl AuthErrorNoToken)
  /\ (forall kv v, status_code r = 200 -> json_of r = Some (JObj kv) ->
        dict_get kv "access_token" = Some v ->
        fst out = if truthy v then inr v else inl AuthErrorNoToken)
  /\ (forall kv s, status_code r = 200 -> json_of r = Some (JObj kv) ->
        dict_get kv "access_token" = Some (JStr s) -> s <> EmptyString ->
        fst out = inr (JStr s))
  /\ self (snd out) = self st
  /\ snd out = posted (token_request (self st)) rest st.
Proof.
  intros Hin out. subst out. rewrite get_access_token_run, Hin. cbn [fst snd].
  assert (G : forall kv v, status_code r = 200 -> json_of r = Some (JObj kv) ->
              dict_get kv "access_token" = Some v ->
              token_of_response r = if truthy v then inr v else inl AuthErrorNoToken).
  { intros kv v Hs Hj Hg. unfold token_of_response.
    rewrite Hs, Hj. cbn. rewrite Hg. destruct (truthy v); reflexivity. }
  repeat split.
  - intro Hs. unfold token_of_response.
    destruct (Z.eqb_spec (status_code r) 200); [contradiction|reflexivity].
  - intros kv Hs Hj Hg. unfold token_of_response.
    rewrite Hs, Hj. cbn. rewrite Hg. reflexivity.
  - exact G.
  - intros kv s Hs Hj Hg Hne. rewrite (G kv (JStr s) Hs Hj Hg).
    apply truthy_str in Hne. rewrite Hne. reflexivity.
Qed.

Lemma get_access_token_contract_witness :
  fst (get_access_token (Sample.state JNull [Sample.grant "tok-1"]))
  = inr (JStr "tok-1")
  /\ self (snd (get_access_token (Sample.state JNull [Sample.grant "tok-1"])))
     = Sample.client JNull.
Proof.
  pose proof (get_access_token_contract
                (Sample.state JNull [Sample.grant "tok-1"])
                (Sample.grant "tok-1") [] eq_refl) as H.
  cbv zeta in H. destruct H as (_ & _ & _ & H4 & H5 & _). split.
  - eapply H4; [reflexivity | reflexivity | reflexivity | discriminate].
  - exact H5.
Defined.

(** The failures of [get_access_token] at a glance: an empty token is
    refused like a missing one, and a body that is not JSON raises the
    decoder's error. *)
Example get_access_token_empty_token :
  fst (get_access_token
         (Sample.state JNull [Sample.ok (JObj [("access_token", JStr EmptyString)])]))
  = inl AuthErrorNoToken.
Proof. reflexivity. Qed.

Example get_access_token_not_json :
  fst (get_access_token
         (Sample.state JNull
            [{| status_code := 200; text := "<html>"; json_of := None |}]))
  = inl JSONDecodeError.
Proof. reflexivity. Qed.

Example get_access_token_server_error :
  fst (get_access_token (Sample.state JNull [Sample.server_error]))
  = inl (AuthError 500 "oops").
Proof. reflexivity. Qed.

(** ** The refresh test *)

(** With a token endpoint that answers the next request with a token,
    [_refresh_token_if_needed] returns what [needs_refresh] says; it
    stores the fetched token exactly when the answer is [True]. *)
Lemma _refresh_token_if_needed_granted (r t : Response) (rest : list Response)
    (token : json) (st : State) :
  inbox (world st) = t :: rest ->
  token_of_response t = inr token ->
  _refresh_token_if_needed r st =
  (inr (needs_refresh r),
   if needs_refresh r
   then with_token token (posted (token_request (self st)) rest st)
   else st).
Proof.
  intros Hin Ht. rewrite _refresh_token_if_needed_run.
  unfold refetch. rewrite get_access_token_run, Hin, Ht.
  destruct (needs_refresh r); [|reflexivity].
  destruct (json_of r); reflexivity.
Qed.

(** A [True] answer always comes with a token just fetched and stored. *)
Lemma _refresh_token_if_needed_true (r : Response) (st st' : State) :
  _refresh_token_if_needed r st = (inr true, st') ->
  exists st0 st1 token,
    get_access_token st0 = (inr token, st1)
    /\ st' = with_token token st1
    /\ token_traffic st st0.
Proof.
  rewrite _refresh_token_if_needed_run. unfold refetch.
  destruct (needs_refresh r); [|discriminate].
  destruct (json_of r) as [d|].
  - destruct (get_access_token st) as [[e|token] st1] eqn:G.
    + destruct (status_code r =? 401); [|discriminate].
      destruct (get_access_token st1) as [[e'|token'] st2] eqn:G'; [discriminate|].
      intros [= <-]. exists st1, st2, token'. split; [|split]; auto.
      eapply get_access_token_traffic; eassumption.
    + intros [= <-]. exists st, st1, token. split; [|split]; auto.
      apply token_traffic_refl.
  - destruct (get_access_token st) as [[e|token] st1] eqn:G; [discriminate|].
    intros [= <-]. exists st, st1, token. split; [|split]; auto.
    apply token_traffic_refl.
Qed.

(** C2.  The refresh test of the code against the specification's
    [needs_refresh].  (1) [needs_refresh] is true on every 401, true on
    every JSON object with a [code] equal to 503 whatever the status,
    false on a status other than 401 whose JSON object has no such
    [code], and equal to the 401 test when the body is not JSON.
    (2) When the token endpoint grants a token, the method returns
    [needs_refresh r], leaving the state alone on [False] and holding the
    granted token on [True].  (3) Whenever the method returns [True], the
    stored token is one that [get_access_token] has just returned. *)
Theorem refresh_test_contract (r : Response) (st : State) :
  ((status_code r = 401 -> needs_refresh r = true)
   /\ (forall kv c, json_of r = Some (JObj kv) -> dict_get kv "code" = Some c ->
         py_eq_int c 503 = true -> needs_refresh r = true)
   /\ (forall kv, status_code r <> 401 -> json_of r = Some (JObj kv) ->
         (forall c, dict_get kv "code" = Some c -> py_eq_int c 503 = false) ->
         needs_refresh r = false)
   /\ (json_of r = None -> needs_refresh r = (status_code r =? 401)))
  /\ (forall t rest token,
        inbox (world st) = t :: rest ->
        token_of_response t = inr token ->
        _refresh_token_if_needed r st =
        (inr (needs_refresh r),
         if needs_refresh r
         then with_token token (posted (token_request (self st)) rest st)
         else st))
  /\ (needs_refresh r = false -> _refresh_token_if_needed r st = (inr false, st))
  /\ (forall st',
        _refresh_token_if_needed r st = (inr true, st') ->
        exists st0 st1 token,
          get_access_token st0 = (inr token, st1)
          /\ st' = with_token token st1
          /\ access_token (self st') = token
          /\ truthy token = true).
Proof.
  split; [|split; [|split]].
  - unfold needs_refresh. split; [|split; [|split]].
    + intros ->. reflexivity.
    + intros kv c -> Hc Hq. cbn. rewrite Hc, Hq. apply orb_true_r.
    + intros kv Hs -> Hc.
      destruct (Z.eqb_spec (status_code r) 401); [contradiction|]. cbn.
      destruct (dict_get kv "code") as [c|] eqn:E; auto.
    + intros ->. apply orb_false_r.
  - intros t rest token. apply _refresh_token_if_needed_granted.
  - intro H. rewrite _refresh_token_if_needed_run, H. reflexivity.
  - intros st' H. apply _refresh_token_if_needed_true in H.
    destruct H as (st0 & st1 & token & G & -> & _).
    exists st0, st1, token. repeat split; auto.
    eapply get_access_token_truthy; eassumption.
Qed.

Lemma refresh_test_contract_witness :
  _refresh_token_if_needed Sample.expired_in_200
    (Sample.state (JStr "old") [Sample.grant "new"])
  = (inr true,
     with_token (JStr "new")
       (posted (token_request (Sample.client (JStr "old"))) []
          (Sample.state (JStr "old") [Sample.grant "new"])))
  /\ needs_refresh Sample.unauthorized_html = true.
Proof.
  pose proof (refresh_test_contract Sample.expired_in_200
                (Sample.state (JStr "old") [Sample.grant "new"])) as H.
  pose proof (refresh_test_contract Sample.unauthorized_html
                (Sample.state (JStr "old") [])) as H'.
  destruct H as (_ & H2 & _). destruct H' as ((H1 & _) & _).
  split.
  - exact (H2 (Sample.grant "new") [] (JStr "new") eq_refl eq_refl).
  - exact (H1 eq_refl).
Defined.

Example refresh_test_on_data_body :
  _refresh_token_if_needed
    (Sample.ok (Sample.envelope "orders" []))
    (Sample.state (JStr "old") [Sample.grant "new"])
  = (inr false, Sample.state (JStr "old") [Sample.grant "new"]).
Proof. reflexivity. Qed.

Example refresh_test_on_float_code :
  needs_refresh (Sample.ok (JObj [("code", JFloat (float_of_Z 503))])) = true.
Proof. reflexivity. Qed.

(** ** A token fetch that fails during the refresh test *)

(** When the response parsed as JSON, the fetch runs inside the [try]
    block, so its failure is caught by the handler written for bodies
    that are not JSON: on a 401 the handler fetches a second time, and
    otherwise the failure is dropped and the answer is [False]. *)
Lemma refresh_failure_caught (r : Response) (d : json) (st st1 : State) (e : exn) :
  json_of r = Some d ->
  needs_refresh r = true ->
  get_access_token st = (inl e, st1) ->
  _refresh_token_if_needed r st =
  if status_code r =? 401 then refetch st1 else (inr false, st1).
Proof.
  intros Hj Hn G. rewrite _refresh_token_if_needed_run, Hn, Hj, G. reflexivity.
Qed.

(** The sibling paths let the failure through after a single attempt:
    the handler itself (body not JSON) and [_ensure_token]. *)
Lemma refresh_failure_propagates (r : Response) (st st1 : State) (e : exn) :
  json_of r = None ->
  status_code r = 401 ->
  get_access_token st = (inl e, st1) ->
  _refresh_token_if_needed r st = (inl e, st1).
Proof.
  intros Hj Hs G. rewrite _refresh_token_if_needed_run.
  unfold needs_refresh, refetch. rewrite Hs, Hj, G. reflexivity.
Qed.

Lemma ensure_failure_propagates (st st1 : State) (e : exn) :
  truthy (access_token (self st)) = false ->
  get_access_token st = (inl e, st1) ->
  _ensure_token st = (inl e, st1).
Proof. intros Ht G. rewrite _ensure_token_run, Ht, G. reflexivity. Qed.

(** C4 (the code departs from the claim).  Three runs with a token
    endpoint that answers 500.  (1) A 401 with a JSON body: the failed
    fetch is followed by a second token request, and the call answers
    [True] with the second token; no error reaches the caller.  (2) A 200
    carrying [code] 503: the failure is dropped and the answer is
    [False], after one token request.  (3) [get_fleet_orders] on that
    response returns an empty list with the old token still in place,
    instead of failing. *)
Theorem refresh_failure_is_swallowed :
  _refresh_token_if_needed Sample.unauthorized
    (Sample.state (JStr "old") [Sample.server_error; Sample.grant "new"])
  = (inr true,
     {| self := Sample.client (JStr "new");
        world := {| inbox := [];
                    outbox := [ token_request (Sample.client (JStr "old"));
                                token_request (Sample.client (JStr "old")) ];
                    clock := clock (Sample.world_of [] 1);
                    reads := 0;
                    local_to_posix := local_to_posix (Sample.world_of [] 1);
                    environ := environ (Sample.world_of [] 1) |} |})
  /\ _refresh_token_if_needed Sample.expired_in_200
       (Sample.state (JStr "old") [Sample.server_error])
     = (inr false,
        posted (token_request (Sample.client (JStr "old"))) []
          (Sample.state (JStr "old") [Sample.server_error]))
  /\ (let out := get_fleet_orders 0 50 [11] (Some 1000) (Some 2000)
                   (Sample.state (JStr "old")
                      [Sample.expired_in_200; Sample.server_error]) in
      fst out = inr []
      /\ access_token (self (snd out)) = JStr "old"
      /\ map is_token_request (outbox (world (snd out))) = [false; true]).
Proof. repeat split. Qed.

(** By contrast, the same failure on a 401 whose body is not JSON
    reaches the caller after one attempt. *)
Example refresh_failure_html :
  _refresh_token_if_needed Sample.unauthorized_html
    (Sample.state (JStr "old") [Sample.server_error; Sample.grant "new"])
  = (inl (AuthError 500 "oops"),
     posted (token_request (Sample.client (JStr "old"))) [Sample.grant "new"]
       (Sample.state (JStr "old") [Sample.server_error; Sample.grant "new"])).
Proof. reflexivity. Qed.

(** ** The traffic of a resource method *)

Lemma window_same_clock (k : call) (w w' : World) :
  clock w' = clock w -> reads w' = reads w ->
  local_to_posix w' = local_to_posix w ->
  window k w' = window k w.
Proof. unfold window, unix_seconds. intros -> -> ->. reflexivity. Qed.

Lemma get_access_token_zone (st st' : State) (x : result json) :
  get_access_token st = (x, st') ->
  local_to_posix (world st') = local_to_posix (world st).
Proof.
  rewrite get_access_token_run.
  destruct (inbox (world st)); intros [= _ <-]; reflexivity.
Qed.

Lemma _ensure_token_zone (st st' : State) (x : result unit) :
  _ensure_token st = (x, st') ->
  local_to_posix (world st') = local_to_posix (world st).
Proof.
  rewrite _ensure_token_run.
  destruct (truthy (access_token (self st))); [intros [= _ <-]; reflexivity|].
  destruct (get_access_token st) as [[e|token] st1] eqn:G;
    apply get_access_token_zone in G; intros [= _ <-]; exact G.
Qed.

Lemma token_request_same (c c' : Client) :
  client_id c' = client_id c -> client_secret c' = client_secret c ->
  token_request c' = token_request c.
Proof. unfold token_request. intros -> ->. reflexivity. Qed.

Lemma is_resource_token_request (c : Client) :
  is_resource_request (token_request c) = false.
Proof. reflexivity. Qed.

Lemma is_resource_resource_request (k : call) (st : State) (token : json) :
  is_resource_request (resource_request k st token) = true.
Proof. reflexivity. Qed.

(** Every run of [exchange] has the traffic described by
    [method_traffic]: nothing else is ever issued. *)
Lemma exchange_traffic (k : call) (st st' : State) (x : result Response) :
  exchange k st = (x, st') -> method_traffic k st st'.
Proof.
  rewrite exchange_run.
  destruct (_ensure_token st) as [[x1|[]] st1] eqn:E1.
  { intros [= _ <-]. apply _ensure_token_traffic in E1.
    destruct E1 as (_ & _ & B & _ & R & _ & T & reqs & O & F).
    exists reqs, []. rewrite app_nil_r. repeat split; auto. }
  pose proof (_ensure_token_traffic _ _ _ E1)
    as (I1 & S1 & B1 & C1 & R1 & _ & T1 & reqs0 & O1 & F1).
  assert (K1 : truthy (access_token (self st)) = true ->
               access_token (self st1) = access_token (self st) /\ reqs0 = []).
  { intro Ht. rewrite _ensure_token_run, Ht in E1. injection E1 as <-.
    split; [reflexivity|].
    apply (f_equal (@List.length _)) in O1. rewrite length_app in O1.
    destruct reqs0; [reflexivity|cbn in O1; lia]. }
  cbv zeta.
  rewrite (window_same_clock k _ _ C1 R1 (_ensure_token_zone _ _ _ E1)).
  set (s := fst (window k (world st))). set (e := snd (window k (world st))).
  set (st2 := Nat.iter (clock_reads k) ticked st1).
  assert (Q : forall c, base_url c = base_url (self st) ->
                request_of k c s e = resource_request k st (access_token c)).
  { intros c Hb. unfold request_of, resource_request. rewrite Hb. reflexivity. }
  assert (S2 : self st2 = self st1) by apply ticked_iter_self.
  destruct (ticked_iter_world (clock_reads k) st1) as (In2 & O2 & _ & _).
  fold st2 in In2, O2.
  assert (R2 : reads (world st2) = (clock_reads k + reads (world st))%nat)
    by (unfold st2; rewrite ticked_iter_reads, R1; reflexivity).
  rewrite attempt_run, S2, (Q (self st1) B1).
  set (q1 := resource_request k st (access_token (self st1))).
  assert (First : exists token1,
             q1 = resource_request k st token1
             /\ (truthy (access_token (self st)) = true ->
                 token1 = access_token (self st) /\ reqs0 = [])).
  { exists (access_token (self st1)). split; [reflexivity|exact K1]. }
  destruct First as (token1 & Eq1 & K1').
  destruct (inbox (world st2)) as [|r1 rest].
  { intros [= _ <-]. exists reqs0, [q1].
    cbn. rewrite O2, O1, S2, <- app_assoc. repeat split; auto.
    right. exists token1, []. rewrite Eq1. repeat split; auto; apply K1'; assumption. }
  set (st3 := posted q1 rest st2).
  destruct (_refresh_token_if_needed r1 st3) as [y st4] eqn:E2.
  pose proof (_refresh_token_if_needed_traffic _ _ _ _ E2)
    as (I4 & S4 & B4 & _ & R4 & _ & T4 & reqs1 & O4 & F4).
  assert (R4' : reads (world st4) = (clock_reads k + reads (world st))%nat)
    by (rewrite R4; unfold st3; cbn; exact R2).
  assert (S3 : self st3 = self st1) by (unfold st3; cbn; exact S2).
  assert (F4' : Forall (fun rq => rq = token_request (self st)) reqs1).
  { rewrite S3 in F4.
    rewrite (token_request_same (self st) (self st1)) in F4; auto. }
  assert (B4' : base_url (self st4) = base_url (self st)) by (rewrite B4, S3; exact B1).
  assert (T4' : truthy (access_token (self st)) = true ->
                truthy (access_token (self st4)) = true).
  { intro Ht. apply T4. rewrite S3. auto. }
  assert (O4' : outbox (world st4)
                = (outbox (world st) ++ reqs0 ++ q1 :: reqs1)%list).
  { rewrite O4. unfold st3; cbn. rewrite O2, O1, <- !app_assoc. reflexivity. }
  assert (Stop : st' = st4 -> method_traffic k st st').
  { intros ->. exists reqs0, (q1 :: reqs1). repeat split; auto.
    right. exists token1, reqs1. rewrite Eq1.
    repeat split; auto; apply K1'; assumption. }
  assert (Go : forall rest',
    st' = posted (resource_request k st (access_token (self st4))) rest' st4 ->
    method_traffic k st st').
  { intros rest' ->.
    exists reqs0, (q1 :: reqs1
                   ++ [resource_request k st (access_token (self st4))])%list.
    cbn [posted self world outbox]. rewrite O4'.
    repeat split; auto.
    - rewrite <- !app_assoc. reflexivity.
    - right. exists token1, reqs1. rewrite Eq1.
      repeat split; auto; apply K1'; assumption. }
  destruct y as [x2|[|]]; try (intros [= _ <-]; apply Stop; reflexivity).
  rewrite attempt_run, (Q (self st4) B4').
  destruct (inbox (world st4)) as [|r2 rest2]; intros [= _ <-]; eapply Go; reflexivity.
Qed.

Lemma invoke_traffic (k : call) (st : State) :
  method_traffic k st (snd (invoke k st)).
Proof.
  rewrite invoke_run.
  destruct (exchange k st) as [[x|r] st'] eqn:E;
    apply exchange_traffic in E; exact E.
Qed.

Lemma filter_token_requests (c : Client) (l : list Request) :
  Forall (fun rq => rq = token_request c) l ->
  filter is_resource_request l = [].
Proof.
  induction 1 as [|rq l H _ IH]; cbn; [reflexivity|].
  rewrite H, is_resource_token_request. exact IH.
Qed.

Lemma issued_app (st st' : State) (l : list Request) :
  outbox (world st') = (outbox (world st) ++ l)%list -> issued st st' = l.
Proof.
  intro H. unfold issued. rewrite H, skipn_app, skipn_all, Nat.sub_diag.
  reflexivity.
Qed.

(** The resource requests of a run: none, one, or two; they are the
    request of the call under the token held when each was built. *)
Lemma invoke_resource_requests (k : call) (st : State) :
  let st' := snd (invoke k st) in
  resource_requests st st' = []
  \/ exists token1,
       (truthy (access_token (self st)) = true -> token1 = access_token (self st))
       /\ (resource_requests st st' = [resource_request k st token1]
           \/ resource_requests st st'
              = [resource_request k st token1;
                 resource_request k st (access_token (self st'))]).
Proof.
  intro st'. pose proof (invoke_traffic k st) as T. fold st' in T.
  destruct T as (toks0 & tail & O & F0 & _ & _ & _ & Tail).
  unfold resource_requests. rewrite (issued_app _ _ _ O), filter_app.
  rewrite (filter_token_requests _ _ F0). cbn [app].
  destruct Tail as [-> | (token1 & toks1 & F1 & K & [-> | ->])].
  - left; reflexivity.
  - right. exists token1. split; [intro Ht; apply K; exact Ht|]. left.
    cbn. rewrite (filter_token_requests _ _ F1). reflexivity.
  - right. exists token1. split; [intro Ht; apply K; exact Ht|]. right.
    cbn. rewrite filter_app, (filter_token_requests _ _ F1). reflexivity.
Qed.

(** ** The retried request *)

(** C9.  In every run of every resource method at most two resource
    requests are issued; each goes to the method's endpoint under the
    base URL with the JSON body built from the arguments and the time
    window settled before the first attempt; when there are two, the
    second is the first with the bearer token replaced by the token held
    at the end.  The clock is read only for the missing bounds, so the
    retry does not read it again. *)
Theorem retry_repeats_request (k : call) (st : State) :
  let st' := snd (invoke k st) in
  (List.length (resource_requests st st') <= 2)%nat
  /\ (forall q, In q (resource_requests st st') ->
        url q = str_of (base_url (self st)) ++ path_of k
        /\ content_type q = Some "application/json"
        /\ sent q = Json (body_of k (fst (window k (world st)))
                                    (snd (window k (world st)))))
  /\ (forall q1 q2, resource_requests st st' = [q1; q2] ->
        q2 = {| url := url q1; content_type := content_type q1;
                bearer := Some (access_token (self st')); sent := sent q1 |})
  /\ (reads (world st') <= clock_reads k + reads (world st))%nat.
Proof.
  intro st'.
  pose proof (invoke_resource_requests k st) as R. fold st' in R. cbv zeta in R.
  pose proof (invoke_traffic k st) as T. fold st' in T.
  destruct T as (_ & _ & _ & _ & _ & _ & Rd & _).
  split; [|split; [|split]].
  - destruct R as [-> | (t1 & _ & [-> | ->])]; cbn; lia.
  - intros q Hq.
    destruct R as [R | (t1 & _ & [R | R])]; rewrite R in Hq; cbn in Hq.
    + contradiction.
    + destruct Hq as [<- | []]. repeat split.
    + destruct Hq as [<- | [<- | []]]; repeat split.
  - intros q1 q2 E.
    destruct R as [R | (t1 & _ & [R | R])]; rewrite R in E; try discriminate.
    injection E as <- <-. reflexivity.
  - destruct Rd as [-> | ->]; lia.
Qed.

Lemma retry_repeats_request_witness :
  let st := Sample.state (JStr "old") Sample.retry_script in
  let st' := snd (invoke Sample.vehicles_call st) in
  resource_requests st st'
  = [ resource_request Sample.vehicles_call st (JStr "old");
      resource_request Sample.vehicles_call st (JStr "new") ]
  /\ resource_request Sample.vehicles_call st (JStr "new")
     = {| url := "https://fleet.example/api/getVehicles";
          content_type := Some "application/json";
          bearer := Some (JStr "new");
          sent := Json (JObj [ ("offset", JInt 0); ("limit", JInt 10);
                               ("company_id", JInt 42);
                               ("start_ts", JInt 1699913600);
                               ("end_ts", JInt 1700000000);
                               ("portal_status", JStr "active") ]) |}.
Proof.
  intros st st'.
  assert (E : resource_requests st st'
              = [ resource_request Sample.vehicles_call st (JStr "old");
                  resource_request Sample.vehicles_call st (JStr "new") ])
    by reflexivity.
  split; [exact E|].
  destruct (retry_repeats_request Sample.vehicles_call st) as (_ & _ & H & _).
  rewrite (H _ _ E). reflexivity.
Defined.

(** ** Where the stored token comes from *)

Lemma token_origin_refl (st : State) : token_origin st st.
Proof. split; [exists []; reflexivity | left; reflexivity]. Qed.

Lemma token_origin_trans (a b c : State) :
  token_origin a b -> token_origin b c -> token_origin a c.
Proof.
  intros [(ua & Ia) Ta] [(ub & Ib) Tb]. split.
  - exists (ua ++ ub)%list. rewrite Ia, Ib, app_assoc. reflexivity.
  - destruct Tb as [Tb | (r & Hr & Hv)].
    + rewrite Tb. exact Ta.
    + right. exists r. split; [|exact Hv].
      rewrite Ia. apply in_or_app. right. exact Hr.
Qed.

Lemma posted_origin (rq : Request) (r : Response) (rest : list Response) (st : State) :
  inbox (world st) = r :: rest -> token_origin st (posted rq rest st).
Proof.
  intro H. split; [exists [r]; rewrite H; reflexivity | left; reflexivity].
Qed.

Lemma posted_nil_origin (rq : Request) (st : State) :
  inbox (world st) = [] -> token_origin st (posted rq [] st).
Proof.
  intro H. split; [exists []; rewrite H; reflexivity | left; reflexivity].
Qed.

Lemma ticked_iter_origin (n : nat) (st : State) :
  token_origin st (Nat.iter n ticked st).
Proof.
  destruct (ticked_iter_world n st) as (I & _). split.
  - exists []. rewrite I. reflexivity.
  - left. rewrite ticked_iter_self. reflexivity.
Qed.

Lemma get_access_token_origin (st st' : State) (x : result json) :
  get_access_token st = (x, st') ->
  token_origin st st'
  /\ forall token, x = inr token -> token_origin st (with_token token st').
Proof.
  rewrite get_access_token_run.
  destruct (inbox (world st)) as [|r rest] eqn:I; intros [= <- <-].
  - split; [apply posted_nil_origin; exact I | discriminate].
  - split; [apply (posted_origin _ r); exact I|].
    intros token Ht. split.
    + exists [r]. rewrite I. reflexivity.
    + right. exists r. split; [rewrite I; left; reflexivity | exact Ht].
Qed.

Lemma refetch_origin (st st' : State) (x : result bool) :
  refetch st = (x, st') -> token_origin st st'.
Proof.
  unfold refetch.
  destruct (get_access_token st) as [[e|token] st1] eqn:G;
    apply get_access_token_origin in G; destruct G as [G1 G2];
    intros [= _ <-]; auto.
Qed.

Lemma _ensure_token_origin (st st' : State) (x : result unit) :
  _ensure_token st = (x, st') -> token_origin st st'.
Proof.
  rewrite _ensure_token_run.
  destruct (truthy (access_token (self st))).
  - intros [= _ <-]. apply token_origin_refl.
  - destruct (get_access_token st) as [[e|token] st1] eqn:G;
      apply get_access_token_origin in G; destruct G as [G1 G2];
      intros [= _ <-]; auto.
Qed.

Lemma _refresh_token_if_needed_origin (r : Response) (st st' : State)
    (x : result bool) :
  _refresh_token_if_needed r st = (x, st') -> token_origin st st'.
Proof.
  rewrite _refresh_token_if_needed_run.
  destruct (needs_refresh r); [|intros [= _ <-]; apply token_origin_refl].
  destruct (json_of r) as [d|]; [|apply refetch_origin].
  destruct (get_access_token st) as [[e|token] st1] eqn:G;
    apply get_access_token_origin in G; destruct G as [G1 G2].
  - destruct (status_code r =? 401).
    + intro R. apply refetch_origin in R.
      eapply token_origin_trans; eassumption.
    + intros [= _ <-]. exact G1.
  - intros [= _ <-]. auto.
Qed.

Lemma attempt_origin (k : call) (s e : Z) (st st' : State) (x : result Response) :
  attempt k s e st = (x, st') -> token_origin st st'.
Proof.
  rewrite attempt_run.
  destruct (inbox (world st)) as [|r rest] eqn:I; intros [= _ <-].
  - apply posted_nil_origin; exact I.
  - eapply posted_origin; exact I.
Qed.

Lemma exchange_origin (k : call) (st st' : State) (x : result Response) :
  exchange k st = (x, st') -> token_origin st st'.
Proof.
  rewrite exchange_run.
  destruct (_ensure_token st) as [[x1|[]] st1] eqn:E1;
    apply _ensure_token_origin in E1; [intros [= _ <-]; exact E1|].
  cbv zeta.
  pose proof (ticked_iter_origin (clock_reads k) st1) as E2.
  destruct (attempt k _ _ (Nat.iter (clock_reads k) ticked st1))
    as [[x3|r1] st3] eqn:E3; apply attempt_origin in E3.
  { intros [= _ <-]. eauto using token_origin_trans. }
  destruct (_refresh_token_if_needed r1 st3) as [[x4|[|]] st4] eqn:E4;
    apply _refresh_token_if_needed_origin in E4.
  - intros [= _ <-]. eauto using token_origin_trans.
  - intro E5. apply attempt_origin in E5. eauto 6 using token_origin_trans.
  - intros [= _ <-]. eauto using token_origin_trans.
Qed.

Lemma invoke_origin (k : call) (st : State) :
  token_origin st (snd (invoke k st)).
Proof.
  rewrite invoke_run.
  destruct (exchange k st) as [[x|r] st'] eqn:E;
    apply exchange_origin in E; exact E.
Qed.

(** Any property of tokens that holds of the token held and of every
    token the transport may grant holds of the token held afterwards. *)
Lemma token_origin_preserves (P : json -> Prop) (st st' : State) :
  token_origin st st' ->
  (forall r v, In r (inbox (world st)) -> token_of_response r = inr v -> P v) ->
  P (access_token (self st)) ->
  P (access_token (self st')).
Proof.
  intros [_ [E | (r & Hr & Hv)]] HP H0.
  - rewrite E. exact H0.
  - eapply HP; eassumption.
Qed.

(** ** The token invariant *)

Lemma after_traffic (op : operation) (st : State) :
  truthy (access_token (self st)) = true ->
  truthy (access_token (self (after op st))) = true.
Proof.
  intro Ht. destruct op as [| |r|k]; cbn [after].
  - destruct (_ensure_token st) as [x st'] eqn:E.
    apply _ensure_token_traffic in E. apply E. exact Ht.
  - destruct (get_access_token st) as [x st'] eqn:E.
    apply get_access_token_traffic in E. destruct E as [_ E].
    cbn. rewrite E. exact Ht.
  - destruct (_refresh_token_if_needed r st) as [x st'] eqn:E.
    apply _refresh_token_if_needed_traffic in E. apply E. exact Ht.
  - pose proof (invoke_traffic k st) as (_ & _ & _ & _ & _ & T & _).
    apply T. exact Ht.
Qed.

Lemma after_origin (op : operation) (st : State) :
  token_origin st (after op st).
Proof.
  destruct op as [| |r|k]; cbn [after].
  - destruct (_ensure_token st) as [x st'] eqn:E.
    eapply _ensure_token_origin; exact E.
  - destruct (get_access_token st) as [x st'] eqn:E.
    exact (proj1 (get_access_token_origin _ _ _ E)).
  - destruct (_refresh_token_if_needed r st) as [x st'] eqn:E.
    eapply _refresh_token_if_needed_origin; exact E.
  - apply invoke_origin.
Qed.

Lemma granted_nonempty_string (rs : list Response) (r : Response) (v : json) :
  grants_strings rs -> In r rs -> token_of_response r = inr v ->
  nonempty_string v.
Proof.
  intros G Hr Hv. destruct (G r v Hr Hv) as (s & ->).
  exists s. split; [reflexivity|].
  apply truthy_str. eapply token_of_response_truthy; exact Hv.
Qed.

Lemma create_client_run (w : World) :
  create_client w =
  let c := {| client_id := dict_get (environ w) "BOLT_CLIENT_ID";
              client_secret := dict_get (environ w) "BOLT_CLIENT_SECRET";
              base_url := dict_get (environ w) "BOLT_API_URL";
              access_token := JNull |} in
  match inbox w with
  | [] => (inl ConnectionError,
           world (posted (token_request c) [] {| self := c; world := w |}))
  | r :: rest =>
      match token_of_response r with
      | inr token =>
          (inr {| client_id := client_id c; client_secret := client_secret c;
                  base_url := base_url c; access_token := token |},
           world (posted (token_request c) rest {| self := c; world := w |}))
      | inl e =>
          (inl e, world (posted (token_request c) rest {| self := c; world := w |}))
      end
  end.
Proof.
  unfold create_client, __init__. unfold bind at 1. cbn [world self].
  rewrite _ensure_token_run. cbn [self access_token truthy].
  rewrite get_access_token_run. cbn [world self inbox].
  destruct (inbox w) as [|r rest]; [reflexivity|].
  destruct (token_of_response r); reflexivity.
Qed.

(** C10.  (1) A client whose construction succeeds holds a truthy token
    (neither [None] nor empty), and a non-empty string when the token
    endpoint grants strings.  (2) No operation, whether it returns or
    raises, turns a truthy token into a falsy one, nor a non-empty string
    into anything else when the endpoint grants strings: the token held
    afterwards is the one held before or one that [get_access_token]
    drew from a delivered response.  (3) A token
    that is [None] or the empty string counts as absent: [_ensure_token]
    then fetches one and stores it, and it does nothing when a truthy
    token is held. *)
Theorem token_invariant :
  (forall w c w',
     create_client w = (inr c, w') ->
     truthy (access_token c) = true
     /\ (grants_strings (inbox w) -> nonempty_string (access_token c)))
  /\ (forall op st,
        truthy (access_token (self st)) = true ->
        truthy (access_token (self (after op st))) = true)
  /\ (forall op st,
        grants_strings (inbox (world st)) ->
        nonempty_string (access_token (self st)) ->
        nonempty_string (access_token (self (after op st))))
  /\ (forall op st,
        access_token (self (after op st)) = access_token (self st)
        \/ exists r, In r (inbox (world st))
                     /\ token_of_response r = inr (access_token (self (after op st))))
  /\ (forall st,
        truthy (access_token (self st)) = false ->
        _ensure_token st =
        match get_access_token st with
        | (inr token, st') => (inr tt, with_token token st')
        | (inl e, st') => (inl e, st')
        end)
  /\ truthy JNull = false
  /\ truthy (JStr EmptyString) = false
  /\ (forall st,
        truthy (access_token (self st)) = true -> _ensure_token st = (inr tt, st)).
Proof.
  split; [|split; [|split; [|split; [|split; [|split; [|split]]]]]].
  - intros w c w'. rewrite create_client_run. cbv zeta.
    destruct (inbox w) as [|r rest]; [discriminate|].
    destruct (token_of_response r) as [e|token] eqn:T; [discriminate|].
    intros [= <- _]. cbn [access_token]. split.
    + eapply token_of_response_truthy; exact T.
    + intro G. eapply (granted_nonempty_string (r :: rest)); eauto. left; reflexivity.
  - exact after_traffic.
  - intros op st G H.
    apply (token_origin_preserves nonempty_string st (after op st)); auto.
    + apply after_origin.
    + intros r v Hr Hv. eapply granted_nonempty_string; eassumption.
  - intros op st. apply after_origin.
  - intros st Ht. rewrite _ensure_token_run, Ht. reflexivity.
  - reflexivity.
  - reflexivity.
  - intros st Ht. rewrite _ensure_token_run, Ht. reflexivity.
Qed.

Lemma token_invariant_witness :
  fst (create_client (Sample.world_of [Sample.grant "tok-1"] 1))
  = inr (Sample.client (JStr "tok-1"))
  /\ nonempty_string (JStr "tok-1")
  /\ truthy (access_token (self (after (Call Sample.vehicles_call)
                                   (Sample.state (JStr "old") Sample.retry_script))))
     = true.
Proof.
  destruct token_invariant as (H1 & H2 & _).
  split; [reflexivity|]. split.
  - refine (proj2 (H1 (Sample.world_of [Sample.grant "tok-1"] 1)
                      (Sample.client (JStr "tok-1")) _ eq_refl) _).
    intros r v [<- | []] Hv. injection Hv as <-. exists "tok-1". reflexivity.
  - apply H2. reflexivity.
Defined.

Example ensure_token_refetches_empty :
  _ensure_token (Sample.state (JStr EmptyString) [Sample.grant "tok-2"])
  = (inr tt,
     with_token (JStr "tok-2")
       (posted (token_request (Sample.client (JStr EmptyString))) []
          (Sample.state (JStr EmptyString) [Sample.grant "tok-2"]))).
Proof. reflexivity. Qed.

(** ** Refresh and single retry *)

(** The run of a method that holds a token, meets a response asking for
    a refresh, and is granted a new token. *)
Lemma invoke_retry_run (k : call) (st : State) (r1 t r2 : Response)
    (rest : list Response) (token : json) :
  truthy (access_token (self st)) = true ->
  inbox (world st) = r1 :: t :: r2 :: rest ->
  needs_refresh r1 = true ->
  token_of_response t = inr token ->
  exists st',
    invoke k st = (records_of k r2, st')
    /\ outbox (world st')
       = (outbox (world st)
          ++ [ resource_request k st (access_token (self st));
               token_request (self st);
               resource_request k st token ])%list
    /\ inbox (world st') = rest
    /\ access_token (self st') = token.
Proof.
  intros Ht Hin Hn Htok.
  rewrite invoke_run, exchange_run, _ensure_token_run, Ht. cbv zeta.
  rewrite attempt_run.
  destruct (ticked_iter_world (clock_reads k) st) as (I2 & O2 & _ & _).
  rewrite I2, Hin.
  set (st3 := posted _ (t :: r2 :: rest) _).
  rewrite (_refresh_token_if_needed_granted r1 t (r2 :: rest) token st3 eq_refl Htok), Hn.
  subst st3. rewrite attempt_run. cbn [inbox world with_token posted].
  eexists. split; [reflexivity|].
  cbn [outbox world posted self with_token access_token base_url inbox].
  rewrite O2, ticked_iter_self. split; [|split; reflexivity].
  rewrite <- !app_assoc. reflexivity.
Qed.

(** The run of a method that holds a token and meets a response that
    does not ask for a refresh. *)
Lemma invoke_direct_run (k : call) (st : State) (r : Response)
    (rest : list Response) :
  truthy (access_token (self st)) = true ->
  inbox (world st) = r :: rest ->
  needs_refresh r = false ->
  invoke k st =
  (records_of k r,
   posted (resource_request k st (access_token (self st))) rest
     (Nat.iter (clock_reads k) ticked st)).
Proof.
  intros Ht Hin Hn.
  rewrite invoke_run, exchange_run, _ensure_token_run, Ht. cbv zeta.
  rewrite attempt_run.
  destruct (ticked_iter_world (clock_reads k) st) as (I2 & _).
  rewrite I2, Hin, _refresh_token_if_needed_run, Hn, ticked_iter_self.
  reflexivity.
Qed.

Lemma records_of_failure (k : call) (r : Response) :
  status_code r <> 200 ->
  records_of k r = inl (ApiError (what_of k) (status_code r) (text r)).
Proof.
  intro H. unfold records_of.
  destruct (Z.eqb_spec (status_code r) 200); [contradiction|reflexivity].
Qed.

Lemma records_of_data (k : call) (r : Response) (kv d : list (string * json))
    (items : list json) :
  status_code r = 200 ->
  json_of r = Some (JObj kv) ->
  dict_get kv "data" = Some (JObj d) ->
  dict_get d (list_field k) = Some (JArr items) ->
  records_of k r = construct_all (model_of k) items.
Proof.
  intros Hs Hj Hd Hl. unfold records_of. rewrite Hs, Hj. cbn.
  rewrite Hd. cbn. rewrite Hl. reflexivity.
Qed.

(** C1.  For each of the four methods, on a client that holds a token:
    when the first response asks for a refresh and the token endpoint
    grants [token], the traffic of the call is exactly the request, the
    token request, and the request again under [token]; the response to
    the retry is the last one taken from the transport, whatever it is.
    The stored token is then [token].  A retry answered by a non-200
    status (401 in particular) raises the API error with that response's
    status and body; a retry answered by 200 with a data envelope returns
    the records built from its items. *)
Theorem refresh_then_single_retry (k : call) (st : State) (r1 t r2 : Response)
    (rest : list Response) (token : json) :
  truthy (access_token (self st)) = true ->
  inbox (world st) = r1 :: t :: r2 :: rest ->
  needs_refresh r1 = true ->
  token_of_response t = inr token ->
  let out := invoke k st in
  issued st (snd out)
  = [ resource_request k st (access_token (self st));
      token_request (self st);
      resource_request k st token ]
  /\ resource_requests st (snd out)
     = [ resource_request k st (access_token (self st));
         resource_request k st token ]
  /\ inbox (world (snd out)) = rest
  /\ access_token (self (snd out)) = token
  /\ (status_code r2 <> 200 ->
      fst out = inl (ApiError (what_of k) (status_code r2) (text r2)))
  /\ (status_code r2 = 401 ->
      fst out = inl (ApiError (what_of k) 401 (text r2)))
  /\ (forall kv d items records,
        status_code r2 = 200 ->
        json_of r2 = Some (JObj kv) ->
        dict_get kv "data" = Some (JObj d) ->
        dict_get d (list_field k) = Some (JArr items) ->
        construct_all (model_of k) items = inr records ->
        fst out = inr records).
Proof.
  intros Ht Hin Hn Htok out.
  destruct (invoke_retry_run k st r1 t r2 rest token Ht Hin Hn Htok)
    as (st' & E & O & I & T).
  subst out. rewrite E. cbn [fst snd].
  pose proof (issued_app _ _ _ O) as Is.
  split; [exact Is|]. split; [unfold resource_requests; rewrite Is; reflexivity|].
  split; [exact I|]. split; [exact T|]. split; [|split].
  - apply records_of_failure.
  - intro H. rewrite (records_of_failure k r2) by lia. rewrite H. reflexivity.
  - intros kv d items records Hs Hj Hd Hl Hc.
    rewrite (records_of_data k r2 kv d items); assumption.
Qed.

Lemma refresh_then_single_retry_witness :
  let st := Sample.state (JStr "old") Sample.retry_script in
  fst (invoke Sample.vehicles_call st) = inr [Sample.vehicle_record]
  /\ access_token (self (snd (invoke Sample.vehicles_call st))) = JStr "new"
  /\ issued st (snd (invoke Sample.vehicles_call st))
     = [ resource_request Sample.vehicles_call st (JStr "old");
         token_request (Sample.client (JStr "old"));
         resource_request Sample.vehicles_call st (JStr "new") ].
Proof.
  intro st.
  destruct (refresh_then_single_retry Sample.vehicles_call st
              Sample.unauthorized (Sample.grant "new")
              (Sample.ok (Sample.envelope "vehicles" [Sample.vehicle_item]))
              [] (JStr "new") eq_refl eq_refl eq_refl eq_refl)
    as (H1 & _ & _ & H4 & _ & _ & H7).
  split; [|split].
  - eapply H7; reflexivity.
  - exact H4.
  - exact H1.
Defined.

(** Both attempts answered 401: the error carries the second response. *)
Example retry_unauthorized_twice :
  let st := Sample.state (JStr "old")
              [ Sample.unauthorized; Sample.grant "new";
                Sample.unauthorized_html; Sample.grant "unused" ] in
  fst (invoke Sample.vehicles_call st)
  = inl (ApiError "vehicles" 401 "<html>401</html>")
  /\ access_token (self (snd (invoke Sample.vehicles_call st))) = JStr "new"
  /\ inbox (world (snd (invoke Sample.vehicles_call st))) = [Sample.grant "unused"].
Proof. repeat split. Qed.

(** ** The default time window *)

Lemma resource_requests_of_invoke (k : call) (st : State) (q : Request) :
  In q (resource_requests st (snd (invoke k st))) ->
  exists token, q = resource_request k st token.
Proof.
  destruct (invoke_resource_requests k st) as [R | (t1 & _ & [R | R])];
    rewrite R; cbn.
  - contradiction.
  - intros [<- | []]. eexists; reflexivity.
  - intros [<- | [<- | []]]; eexists; reflexivity.
Qed.

Lemma body_of_window (k : call) (s e : Z) :
  exists kv,
    body_of k s e = JObj kv
    /\ dict_get kv "start_ts" = Some (JInt s)
    /\ dict_get kv "end_ts" = Some (JInt e).
Proof. destruct k; eexists; repeat split. Qed.

Lemma wall_seconds_day_before (t : datetime) :
  wall_seconds (minus_timedelta t (timedelta_days 1)) = wall_seconds t - 86400.
Proof.
  unfold wall_seconds, minus_timedelta, timedelta_days. cbn [wall].
  replace (wall t - 1 * 86400 * 1000000) with (wall t + (-86400) * 1000000)
    by lia.
  rewrite Z.div_add by lia. lia.
Qed.


(** A method called with a token in hand issues its request first. *)
Lemma invoke_first_request (k : call) (st : State) :
  truthy (access_token (self st)) = true ->
  exists l,
    issued st (snd (invoke k st))
    = resource_request k st (access_token (self st)) :: l.
Proof.
  intro Ht. rewrite invoke_run.
  assert (X : forall x st', exchange k st = (x, st') ->
            exists l, outbox (world st')
                      = (outbox (world st)
                         ++ resource_request k st (access_token (self st)) :: l)%list).
  { intros x st'. rewrite exchange_run, _ensure_token_run, Ht. cbv zeta.
    rewrite attempt_run.
    destruct (ticked_iter_world (clock_reads k) st) as (_ & O2 & _).
    rewrite ticked_iter_self.
    change (request_of k (self st) (fst (window k (world st)))
              (snd (window k (world st))))
      with (resource_request k st (access_token (self st))).
    set (q1 := resource_request k st (access_token (self st))).
    destruct (inbox (world (Nat.iter (clock_reads k) ticked st))) as [|r1 rest].
    { intros [= _ <-]. exists []. cbn. rewrite O2. reflexivity. }
    set (st3 := posted q1 rest (Nat.iter (clock_reads k) ticked st)).
    assert (O3 : outbox (world st3) = (outbox (world st) ++ [q1])%list)
      by (unfold st3; cbn; rewrite O2; reflexivity).
    destruct (_refresh_token_if_needed r1 st3) as [y st4] eqn:E.
    pose proof (_refresh_token_if_needed_traffic _ _ _ _ E)
      as (_ & _ & _ & _ & _ & _ & _ & reqs & O4 & _).
    assert (O4' : outbox (world st4) = (outbox (world st) ++ q1 :: reqs)%list)
      by (rewrite O4, O3, <- app_assoc; reflexivity).
    destruct y as [e|[|]]; try (intros [= _ <-]; exists reqs; exact O4').
    rewrite attempt_run.
    destruct (inbox (world st4)); intros [= _ <-]; eexists; cbn;
      rewrite O4', <- app_assoc; reflexivity. }
  destruct (exchange k st) as [[x|r] st'] eqn:E; cbn [snd];
    destruct (X _ _ eq_refl) as (l & O); exists l; apply issued_app; exact O.
Qed.

Lemma invoke_issues_resource_request (k : call) (st : State) :
  truthy (access_token (self st)) = true ->
  exists rest,
    resource_requests st (snd (invoke k st))
    = resource_request k st (access_token (self st)) :: rest.
Proof.
  intro Ht. destruct (invoke_first_request k st Ht) as (l & E).
  unfold resource_requests. rewrite E. cbn. eexists; reflexivity.
Qed.




(** It fails as well across a change of the zone's offset, even with
    both readings in the same second: at 14:00 on the day summer time
    ended in Tallinn, the wall clock of a day earlier is 25 hours
    back. *)
Example default_window_across_dst :
  let st := Sample.state_in_tallinn 1698588000000000
              [Sample.ok (Sample.envelope "vehicles" [])] in
  window Sample.vehicles_call (world st) = (1698490800, 1698580800)
  /\ 1698580800 - 1698490800 = 90000
  /\ ~ window_is_one_day Sample.vehicles_call st.
Proof.
  cbv zeta. split; [reflexivity|]. split; [reflexivity|].
  intro H.
  specialize (H _ _ 1698490800 1698580800 (or_introl eq_refl) eq_refl
                eq_refl eq_refl).
  discriminate H.
Qed.

(** The float of a timestamp keeps the microseconds below the next
    second in this century, and no longer from 2^34 seconds on. *)
Example timestamp_rounding :
  py_int (timestamp_float (fun seconds _ => seconds)
            {| wall := 1700000000999999; fold := false |}) = 1700000000
  /\ py_int (timestamp_float (fun seconds _ => seconds)
               {| wall := 17179869184999999; fold := false |}) = 17179869185.
Proof. split; reflexivity. Qed.

(** ** The portal-status filter *)

Lemma resource_request_portal_status (k : call) (st : State) (token : json)
    (o l c : Z) (p : portal_arg) (s e : option Z) :
  k = GetVehicles o l c p s e \/ k = GetDrivers o l c p s e ->
  carries_portal_status (resource_request k st token) (portal_status_value p).
Proof. intros [-> | ->]; eexists; split; reflexivity. Qed.

(** C8.  [get_vehicles] and [get_drivers], called with a token in hand,
    issue a request whose body carries under [portal_status] the value
    of the enumeration member when given one, and the object itself when
    given anything else; and so does every request they issue, from any
    state.  The member and its raw string therefore give the same body,
    with [portal_status] the string [active] or [inactive]. *)
Theorem portal_status_in_body (o l c : Z) (p : portal_arg) (s e : option Z)
    (st : State) :
  (truthy (access_token (self st)) = true ->
   (exists q rest,
      resource_requests st (snd (get_vehicles o l c p s e st)) = q :: rest
      /\ carries_portal_status q (portal_status_value p))
   /\ (exists q rest,
         resource_requests st (snd (get_drivers o l c p s e st)) = q :: rest
         /\ carries_portal_status q (portal_status_value p)))
  /\ (forall q,
        In q (resource_requests st (snd (get_vehicles o l c p s e st)))
        \/ In q (resource_requests st (snd (get_drivers o l c p s e st))) ->
        carries_portal_status q (portal_status_value p))
  /\ portal_status_value (PEnum active) = JStr "active"
  /\ portal_status_value (PEnum inactive) = JStr "inactive"
  /\ (forall raw, portal_status_value (PRaw (JStr raw)) = JStr raw)
  /\ (forall m s' e',
        body_of (GetVehicles o l c (PEnum m) s e) s' e'
        = body_of (GetVehicles o l c (PRaw (JStr (PortalStatus_value m))) s e) s' e'
        /\ body_of (GetDrivers o l c (PEnum m) s e) s' e'
           = body_of (GetDrivers o l c (PRaw (JStr (PortalStatus_value m))) s e) s' e').
Proof.
  change (get_vehicles o l c p s e) with (invoke (GetVehicles o l c p s e)).
  change (get_drivers o l c p s e) with (invoke (GetDrivers o l c p s e)).
  split; [|split; [|repeat split]].
  - intro Ht. split.
    + destruct (invoke_issues_resource_request (GetVehicles o l c p s e) st Ht)
        as (rest & E).
      eexists; eexists; split; [exact E|].
      eapply resource_request_portal_status. left; reflexivity.
    + destruct (invoke_issues_resource_request (GetDrivers o l c p s e) st Ht)
        as (rest & E).
      eexists; eexists; split; [exact E|].
      eapply resource_request_portal_status. right; reflexivity.
  - intros q [Hq | Hq];
      apply resource_requests_of_invoke in Hq; destruct Hq as (token & ->);
      eapply resource_request_portal_status; [left | right]; reflexivity.
Qed.

Lemma portal_status_in_body_witness :
  (exists q rest,
     resource_requests (Sample.state (JStr "tok") [])
       (snd (get_vehicles 0 10 42 (PEnum inactive) None None
               (Sample.state (JStr "tok") [])))
     = q :: rest
     /\ carries_portal_status q (JStr "inactive"))
  /\ (exists q rest,
        resource_requests
          (Sample.state (JStr "tok") [Sample.ok (Sample.envelope "drivers" [])])
          (snd (get_drivers 0 10 42 (PRaw (JStr "active")) (Some 1) (Some 2)
                  (Sample.state (JStr "tok")
                     [Sample.ok (Sample.envelope "drivers" [])])))
        = q :: rest
        /\ carries_portal_status q (JStr "active")).
Proof.
  split.
  - exact (proj1 (proj1 (portal_status_in_body 0 10 42 (PEnum inactive) None None
                           (Sample.state (JStr "tok") [])) eq_refl)).
  - exact (proj2 (proj1 (portal_status_in_body 0 10 42 (PRaw (JStr "active"))
                           (Some 1) (Some 2)
                           (Sample.state (JStr "tok")
                              [Sample.ok (Sample.envelope "drivers" [])]))
                    eq_refl)).
Defined.

(** The first request of [get_vehicles], as issued. *)
Example get_vehicles_places_portal_status :
  resource_requests (Sample.state (JStr "tok") [])
    (snd (get_vehicles 0 10 42 (PEnum inactive) (Some 1) (Some 2)
            (Sample.state (JStr "tok") [])))
  = [ {| url := "https://fleet.example/api/getVehicles";
         content_type := Some "application/json";
         bearer := Some (JStr "tok");
         sent := Json (JObj [ ("offset", JInt 0); ("limit", JInt 10);
                              ("company_id", JInt 42);
                              ("start_ts", JInt 1); ("end_ts", JInt 2);
                              ("portal_status", JStr "inactive") ]) |} ].
Proof. reflexivity. Qed.

(** ** Responses without data *)

Lemma records_of_no_data (k : call) (r : Response) (kv : list (string * json)) :
  status_code r = 200 ->
  json_of r = Some (JObj kv) ->
  (dict_get kv "data" = None
   \/ exists d, dict_get kv "data" = Some (JObj d)
                /\ dict_get d (list_field k) = None) ->
  records_of k r = inr [].
Proof.
  intros Hs Hj H. unfold records_of. rewrite Hs, Hj. cbn.
  destruct H as [-> | (d & -> & Hd)]; cbn; [|rewrite Hd]; reflexivity.
Qed.

Lemma records_of_bad_data (k : call) (r : Response) (kv : list (string * json))
    (v : json) :
  status_code r = 200 ->
  json_of r = Some (JObj kv) ->
  dict_get kv "data" = Some v ->
  (forall d, v <> JObj d) ->
  records_of k r = inl AttributeError.
Proof.
  intros Hs Hj Hd Hv. unfold records_of. rewrite Hs, Hj. cbn. rewrite Hd.
  destruct v; try reflexivity. exfalso. eapply Hv. reflexivity.
Qed.

(** C6, as the code has it.  Let [r] be the response a method examines
    (the first one, or the retry's).  When [r] is a 200 whose JSON object
    has no [data], or whose [data] object has no list field of the
    method, the method returns the empty list.  A [data] that is present
    without being an object is not tolerated: the method raises. *)
Theorem missing_data_is_empty (k : call) (st st' : State) (r : Response)
    (kv : list (string * json)) :
  exchange k st = (inr r, st') ->
  status_code r = 200 ->
  json_of r = Some (JObj kv) ->
  ((dict_get kv "data" = None
    \/ exists d, dict_get kv "data" = Some (JObj d)
                 /\ dict_get d (list_field k) = None) ->
   invoke k st = (inr [], st'))
  /\ (forall v, dict_get kv "data" = Some v -> (forall d, v <> JObj d) ->
      invoke k st = (inl AttributeError, st')).
Proof.
  intros E Hs Hj. rewrite invoke_run, E. split.
  - intro H. rewrite (records_of_no_data k r kv Hs Hj H). reflexivity.
  - intros v Hd Hv. rewrite (records_of_bad_data k r kv v Hs Hj Hd Hv). reflexivity.
Qed.

Lemma missing_data_is_empty_witness :
  fst (invoke Sample.vehicles_call
         (Sample.state (JStr "tok") [Sample.ok (JObj [("data", JObj [])])]))
  = inr []
  /\ fst (invoke Sample.vehicles_call
            (Sample.state (JStr "tok") [Sample.ok (JObj [("data", JNull)])]))
     = inl AttributeError.
Proof.
  split.
  - rewrite (proj1 (missing_data_is_empty Sample.vehicles_call
                      (Sample.state (JStr "tok") [Sample.ok (JObj [("data", JObj [])])])
                      _ _ _ eq_refl eq_refl eq_refl)).
    + reflexivity.
    + right. exists []. split; reflexivity.
  - rewrite (proj2 (missing_data_is_empty Sample.vehicles_call
                      (Sample.state (JStr "tok") [Sample.ok (JObj [("data", JNull)])])
                      _ _ _ eq_refl eq_refl eq_refl) JNull eq_refl).
    + reflexivity.
    + discriminate.
Defined.

(** C6, as stated, fails: a [data] that is [null] makes the call raise. *)
Lemma missing_data_counterexample :
  ~ data_wrapper_is_lenient Sample.vehicles_call
      (Sample.ok (JObj [("data", JNull)])).
Proof.
  intro H.
  specialize (H eq_refl _ eq_refl).
  assert (N : forall d, dict_get [("data", JNull)] "data" <> Some (JObj d))
    by (intros d; discriminate).
  specialize (H N). discriminate H.
Qed.

Example null_data_raises :
  fst (invoke Sample.vehicles_call
         (Sample.state (JStr "tok") [Sample.ok (JObj [("data", JNull)])]))
  = inl AttributeError.
Proof. reflexivity. Qed.

Example body_not_json_raises :
  fst (invoke Sample.vehicles_call
         (Sample.state (JStr "tok")
            [{| status_code := 200; text := "<html>"; json_of := None |}]))
  = inl JSONDecodeError.
Proof. reflexivity. Qed.

(** ** Record construction *)

Import Validation.

Lemma validate_model (title : string) (fs : list field) (kv : list (string * json)) :
  validate (TModel title fs) (JObj kv) =
  match validate_fields fs kv with
  | inl es => inl es
  | inr attrs => inr (VModel title attrs)
  end.
Proof.
  cbn [validate].
  assert (E : (fix fields (fs0 : list field) : V (list (string * value)) :=
                 match fs0 with
                 | [] => inr []
                 | f :: rest => both (validate_field f kv) (fields rest) cons
                 end) fs = validate_fields fs kv).
  { induction fs as [|f rest IH]; [reflexivity|].
    cbn [validate_fields]. rewrite <- IH. reflexivity. }
  rewrite E. reflexivity.
Qed.

Lemma construct_model (title : string) (fs : list field) (kv : list (string * json)) :
  construct (TModel title fs) (JObj kv) =
  match validate_fields fs kv with
  | inl es => inl (ValidationError title es)
  | inr attrs => inr (VModel title attrs)
  end.
Proof.
  unfold construct. rewrite validate_model.
  destruct (validate_fields fs kv); reflexivity.
Qed.

Lemma validate_field_eq (f : field) (kv : list (string * json)) :
  validate_field f kv =
  match dict_get kv (field_name f) with
  | None => if is_required f then inl [([field_name f], "missing")]
            else inr (field_name f, VNone)
  | Some j =>
      if negb (is_required f) && match j with JNull => true | _ => false end
      then inr (field_name f, VNone)
      else match under (field_name f) (validate (field_type f) j) with
           | inl es => inl es
           | inr v => inr (field_name f, v)
           end
  end.
Proof.
  destruct f as [name t|name t]; cbn [validate_field field_name field_type is_required negb andb].
  - reflexivity.
  - destruct (dict_get kv name) as [[]|]; reflexivity.
Qed.

(** No declared type accepts [None]. *)
Lemma validate_null (t : ftype) : exists es, validate t JNull = inl es.
Proof. destruct t; eexists; reflexivity. Qed.

(** A failing field fails the construction, and its report is part of
    the error. *)
Lemma validate_fields_failure (fs : list field) (kv : list (string * json))
    (f : field) (es : list verror) :
  In f fs -> validate_field f kv = inl es ->
  exists all, validate_fields fs kv = inl all /\ incl es all.
Proof.
  induction fs as [|g rest IH]; [contradiction|].
  intros [-> | Hin] Hf; cbn [validate_fields]; unfold both.
  - rewrite Hf. destruct (validate_fields rest kv) as [es2|attrs].
    + eexists; split; [reflexivity|]. apply incl_appl, incl_refl.
    + eexists; split; [reflexivity|]. apply incl_refl.
  - destruct (IH Hin Hf) as (all & -> & Hall).
    destruct (validate_field g kv) as [es1|a].
    + eexists; split; [reflexivity|]. apply incl_appr. exact Hall.
    + eexists; split; [reflexivity|]. exact Hall.
Qed.

(** A successful construction holds, for every declared field, the
    outcome of that field. *)
Lemma validate_fields_success (fs : list field) (kv : list (string * json))
    (attrs : list (string * value)) :
  validate_fields fs kv = inr attrs ->
  map fst attrs = map field_name fs
  /\ forall f, In f fs -> exists v, validate_field f kv = inr (field_name f, v)
                                    /\ In (field_name f, v) attrs.
Proof.
  revert attrs. induction fs as [|g rest IH]; intros attrs; cbn [validate_fields].
  - intros [= <-]. split; [reflexivity|]. contradiction.
  - unfold both. destruct (validate_field g kv) as [es1|[n v]] eqn:G;
      destruct (validate_fields rest kv) as [es2|attrs'] eqn:R; try discriminate.
    intros [= <-]. destruct (IH attrs' eq_refl) as (Hn & Hf).
    assert (N : n = field_name g).
    { rewrite validate_field_eq in G.
      destruct (dict_get kv (field_name g)) as [j|].
      - destruct (negb (is_required g) && _); [injection G as <- _; reflexivity|].
        destruct (under _ _); [discriminate|injection G as <- _; reflexivity].
      - destruct (is_required g); [discriminate|injection G as <- _; reflexivity]. }
    subst n. split; [cbn; rewrite Hn; reflexivity|].
    intros f [<- | Hin].
    + exists v. split; [exact G | left; reflexivity].
    + destruct (Hf f Hin) as (w & Hw & Hin'). exists w. split; [exact Hw | right; exact Hin'].
Qed.

Lemma validate_fields_total (fs : list field) (kv : list (string * json)) :
  (forall f, In f fs -> exists a, validate_field f kv = inr a) ->
  exists attrs, validate_fields fs kv = inr attrs.
Proof.
  induction fs as [|g rest IH]; intro H; cbn [validate_fields].
  - eexists; reflexivity.
  - destruct (H g (or_introl eq_refl)) as (a & ->).
    destruct IH as (attrs & ->); [intros f Hf; apply H; right; exact Hf|].
    eexists; reflexivity.
Qed.

Lemma dict_get_nodup {A} (l : list (string * A)) (k : string) (v : A) :
  NoDup (map fst l) -> In (k, v) l -> dict_get l k = Some v.
Proof.
  induction l as [|[k' v'] rest IH]; [contradiction|].
  cbn. intros N [[= -> ->] | Hin].
  - rewrite String.eqb_refl. reflexivity.
  - inversion N as [|? ? Hnot N']; subst.
    destruct (String.eqb_spec k' k) as [->|_].
    + exfalso. apply Hnot. apply (in_map fst) in Hin. exact Hin.
    + apply IH; assumption.
Qed.

Lemma record_types_nodup (m : ftype) :
  In m record_types -> NoDup (map field_name (fields_of m)).
Proof.
  intros [<- | [<- | [<- | [<- | [<- | [<- | []]]]]]]; cbn;
    repeat (constructor; [cbn; intuition discriminate|]); constructor.
Qed.

Lemma record_types_model (m : ftype) :
  In m record_types -> m = TModel (title_of m) (fields_of m).
Proof.
  intros [<- | [<- | [<- | [<- | [<- | [<- | []]]]]]]; reflexivity.
Qed.

Lemma validate_field_present (f : field) (kv : list (string * json))
    (j : json) (v : value) :
  dict_get kv (field_name f) = Some j ->
  validate (field_type f) j = inr v ->
  validate_field f kv = inr (field_name f, v).
Proof.
  intros Hg Hv. rewrite validate_field_eq, Hg.
  destruct j; try (rewrite andb_false_r, Hv; reflexivity).
  destruct (validate_null (field_type f)) as (es & E). congruence.
Qed.

Lemma validate_field_bad (f : field) (kv : list (string * json))
    (j : json) (es : list verror) :
  dict_get kv (field_name f) = Some j ->
  is_required f = true \/ j <> JNull ->
  validate (field_type f) j = inl es ->
  exists es', validate_field f kv = inl es'.
Proof.
  intros Hg Hj Hv. rewrite validate_field_eq, Hg, Hv.
  assert (E : negb (is_required f) && match j with JNull => true | _ => false end
              = false).
  { destruct Hj as [-> | Hj]; [reflexivity|].
    destruct j; try apply andb_false_r. contradiction. }
  rewrite E. eexists; reflexivity.
Qed.

(** Values that already have the declared type are taken unchanged. *)
Lemma validate_same_type :
  (forall z, validate TInt (JInt z) = inr (VInt z))
  /\ (forall x, validate TFloat (JFloat x) = inr (VFloat x))
  /\ (forall s, validate TStr (JStr s) = inr (VStr s))
  /\ (forall b, validate TBool (JBool b) = inr (VBool b))
  /\ (forall p, validate TPortalStatus (JStr (PortalStatus_value p)) = inr (VStatus p))
  /\ (forall s u, Pydantic.uuid_of_string s = Some u ->
        validate TUUID (JStr s) = inr (VUUID u)).
Proof.
  repeat split; try reflexivity.
  - intros []; reflexivity.
  - intros s u H. cbn. rewrite H. reflexivity.
Qed.

Lemma construct_record (m : ftype) (kv : list (string * json)) :
  In m record_types ->
  construct m (JObj kv) =
  match validate_fields (fields_of m) kv with
  | inl es => inl (ValidationError (title_of m) es)
  | inr attrs => inr (VModel (title_of m) attrs)
  end.
Proof.
  intro Hm. rewrite (record_types_model m Hm) at 1. apply construct_model.
Qed.

(** C7.  For each record class [m] and keyword arguments [kv]:
    (a) a required field that is missing makes the construction raise a
    validation error that reports it; (b) so does a value the declared
    type of its field does not accept; (c) when every declared field is
    present with an acceptable value, the construction succeeds and the
    record holds, under each field name, the validated value, which is
    the given value itself when it has the declared type; (d) an
    optional field that is omitted is [None] in the record. *)
Theorem record_construction (m : ftype) (kv : list (string * json)) :
  In m record_types ->
  (forall name t,
     In (Req name t) (fields_of m) -> dict_get kv name = None ->
     exists es, construct m (JObj kv) = inl (ValidationError (title_of m) es)
                /\ In ([name], "missing") es)
  /\ (forall f j es,
        In f (fields_of m) -> dict_get kv (field_name f) = Some j ->
        is_required f = true \/ j <> JNull ->
        validate (field_type f) j = inl es ->
        exists all, construct m (JObj kv) = inl (ValidationError (title_of m) all))
  /\ ((forall f, In f (fields_of m) ->
         exists j v, dict_get kv (field_name f) = Some j
                     /\ validate (field_type f) j = inr v) ->
      exists attrs,
        construct m (JObj kv) = inr (VModel (title_of m) attrs)
        /\ map fst attrs = map field_name (fields_of m)
        /\ forall f j v,
             In f (fields_of m) -> dict_get kv (field_name f) = Some j ->
             validate (field_type f) j = inr v ->
             attr (VModel (title_of m) attrs) (field_name f) = Some v)
  /\ (forall name t record,
        In (Opt name t) (fields_of m) -> dict_get kv name = None ->
        construct m (JObj kv) = inr record ->
        attr record name = Some VNone)
  /\ ((forall z, validate TInt (JInt z) = inr (VInt z))
      /\ (forall x, validate TFloat (JFloat x) = inr (VFloat x))
      /\ (forall s, validate TStr (JStr s) = inr (VStr s))
      /\ (forall b, validate TBool (JBool b) = inr (VBool b))
      /\ (forall p, validate TPortalStatus (JStr (PortalStatus_value p))
                    = inr (VStatus p))
      /\ (forall s u, Pydantic.uuid_of_string s = Some u ->
            validate TUUID (JStr s) = inr (VUUID u))).
Proof.
  intro Hm. pose proof (record_types_nodup m Hm) as N.
  rewrite !(construct_record m kv Hm).
  split; [|split; [|split; [|split]]].
  - intros name t Hin Hg.
    assert (F : validate_field (Req name t) kv = inl [([name], "missing")])
      by (cbn; rewrite Hg; reflexivity).
    destruct (validate_fields_failure _ kv _ _ Hin F) as (all & -> & Hall).
    exists all. split; [reflexivity|]. apply Hall. left; reflexivity.
  - intros f j es Hin Hg Hj Hv.
    destruct (validate_field_bad f kv j es Hg Hj Hv) as (es' & F).
    destruct (validate_fields_failure _ kv _ _ Hin F) as (all & -> & _).
    exists all. reflexivity.
  - intro H.
    destruct (validate_fields_total (fields_of m) kv) as (attrs & E).
    { intros f Hin. destruct (H f Hin) as (j & v & Hg & Hv).
      eexists. apply (validate_field_present f kv j v Hg Hv). }
    rewrite E. exists attrs. split; [reflexivity|].
    destruct (validate_fields_success _ _ _ E) as (Hn & Hf).
    split; [exact Hn|].
    intros f j v Hin Hg Hv. cbn [attr].
    destruct (Hf f Hin) as (w & Hw & Hin').
    rewrite (validate_field_present f kv j v Hg Hv) in Hw.
    injection Hw as <-.
    apply dict_get_nodup; [rewrite Hn; exact N | exact Hin'].
  - intros name t record Hin Hg.
    destruct (validate_fields (fields_of m) kv) as [es|attrs] eqn:E; [discriminate|].
    intros [= <-]. cbn [attr].
    destruct (validate_fields_success _ _ _ E) as (Hn & Hf).
    destruct (Hf _ Hin) as (w & Hw & Hin').
    cbn [validate_field field_name] in Hw, Hin'. rewrite Hg in Hw.
    injection Hw as <-.
    apply dict_get_nodup; [rewrite Hn; exact N | exact Hin'].
  - exact validate_same_type.
Qed.

Lemma record_construction_witness :
  (exists es,
     construct Vehicle (JObj Sample.vehicle_item_no_model)
     = inl (ValidationError "Vehicle" es)
     /\ In (["model"], "missing") es)
  /\ (exists attrs,
        construct Vehicle (JObj Sample.vehicle_item_fields)
        = inr (VModel "Vehicle" attrs)
        /\ attr (VModel "Vehicle" attrs) "year" = Some (VInt 2021)).
Proof.
  assert (Hm : In Vehicle record_types) by (left; reflexivity).
  split.
  - destruct (record_construction Vehicle Sample.vehicle_item_no_model Hm)
      as (Ha & _).
    apply (Ha "model" TStr); [right; left; reflexivity | reflexivity].
  - destruct (record_construction Vehicle Sample.vehicle_item_fields Hm)
      as (_ & _ & Hc & _).
    destruct Hc as (attrs & E & _ & Hattr).
    { intros f [<- | [<- | [<- | [<- | [<- | [<- | []]]]]]];
        eexists; eexists; split; reflexivity. }
    exists attrs. split; [exact E|].
    apply (Hattr (Req "year" TInt) (JInt 2021) (VInt 2021));
      [right; right; left; reflexivity | reflexivity | reflexivity].
Defined.

Example vehicle_roundtrip :
  construct Vehicle Sample.vehicle_item = inr Sample.vehicle_record.
Proof. reflexivity. Qed.

Example vehicle_without_model :
  construct Vehicle (JObj Sample.vehicle_item_no_model)
  = inl (ValidationError "Vehicle" [(["model"], "missing")]).
Proof. reflexivity. Qed.

Example vehicle_bad_uuid_and_year :
  construct Vehicle
    (JObj [ ("id", JInt 7); ("model", JStr "Toyota Corolla");
            ("year", JStr "last year"); ("reg_number", JStr "123ABC");
            ("uuid", JStr "not-a-uuid"); ("state", JStr "active") ])
  = inl (ValidationError "Vehicle"
           [(["year"], "int_type"); (["uuid"], "uuid_type")]).
Proof. reflexivity. Qed.

Example order_of_nothing :
  construct FleetOrder (JObj [])
  = inr (VModel "FleetOrder"
           (map (fun f => (field_name f, VNone)) (fields_of FleetOrder))).
Proof. reflexivity. Qed.

Example order_roundtrip :
  exists attrs,
    construct FleetOrder Sample.order_item = inr (VModel "FleetOrder" attrs)
    /\ dict_get attrs "order_created_timestamp" = Some (VInt 1700000000)
    /\ dict_get attrs "ride_distance" = Some (VFloat (float_of_Z 1200))
    /\ dict_get attrs "order_stops"
       = Some (VList [VModel "OrderStop"
                        [ ("lat", VFloat Sample.half); ("lng", VNone);
                          ("real_lat", VNone); ("real_lng", VNone);
                          ("type", VStr "pickup") ]]).
Proof. eexists. repeat split. Qed.

(** A method raises the validation error of the first item that fails. *)
Example vehicles_with_bad_item :
  fst (invoke Sample.vehicles_call
         (Sample.state (JStr "tok")
            [Sample.ok (Sample.envelope "vehicles"
                          [Sample.vehicle_item; JObj Sample.vehicle_item_no_model])]))
  = inl (ValidationError "Vehicle" [(["model"], "missing")]).
Proof. reflexivity. Qed.

(** * Further properties of the client *)

(** ** Construction *)

(** X1.  [create_client] puts exactly one request on the wire, the token
    request built from the two credentials of the environment, and takes
    one response; nothing else of the world changes.  It returns a client
    exactly when that response grants a token, and the client then holds
    the environment's settings and that token; otherwise the failure of
    the token fetch is the failure of the construction. *)
Theorem create_client_fetches_once (w : World) :
  let out := create_client w in
  outbox (snd out) = (outbox w ++ [token_request (fresh_client w)])%list
  /\ inbox (snd out) = tl (inbox w)
  /\ clock (snd out) = clock w
  /\ reads (snd out) = reads w
  /\ environ (snd out) = environ w
  /\ (forall c,
        fst out = inr c <->
        exists r rest token,
          inbox w = r :: rest
          /\ token_of_response r = inr token
          /\ c = {| client_id := dict_get (environ w) "BOLT_CLIENT_ID";
                    client_secret := dict_get (environ w) "BOLT_CLIENT_SECRET";
                    base_url := dict_get (environ w) "BOLT_API_URL";
                    access_token := token |})
  /\ (forall r rest e,
        inbox w = r :: rest -> token_of_response r = inl e -> fst out = inl e)
  /\ (inbox w = [] -> fst out = inl ConnectionError).
Proof.
  intro out. subst out. rewrite create_client_run. cbv zeta.
  fold (fresh_client w).
  destruct (inbox w) as [|r rest] eqn:I.
  - cbn. repeat split; try discriminate.
    intros (r & rest & token & H & _). discriminate H.
  - destruct (token_of_response r) as [e|token] eqn:T; cbn;
      (split; [reflexivity|]); (split; [reflexivity|]); (split; [reflexivity|]);
      (split; [reflexivity|]); (split; [reflexivity|]); split; [|split| |split].
    + intro c. split; [discriminate|].
      intros (r' & rest' & token' & [= <- <-] & T' & _). congruence.
    + intros r' rest' e' [= <- <-] T'. congruence.
    + discriminate.
    + intro c. split.
      * intros [= <-]. exists r, rest, token. repeat split. exact T.
      * intros (r' & rest' & token' & [= <- <-] & T' & ->).
        rewrite T in T'. injection T' as <-. reflexivity.
    + intros r' rest' e' [= <- <-] T'. congruence.
    + discriminate.
Qed.

Lemma create_client_fetches_once_witness :
  fst (create_client (Sample.world_of [Sample.grant "tok-1"] 1))
  = inr (Sample.client (JStr "tok-1"))
  /\ fst (create_client (Sample.world_of [Sample.server_error] 1))
     = inl (AuthError 500 "oops").
Proof.
  split.
  - destruct (create_client_fetches_once (Sample.world_of [Sample.grant "tok-1"] 1))
      as (_ & _ & _ & _ & _ & H & _).
    apply H. exists (Sample.grant "tok-1"), [], (JStr "tok-1"). repeat split.
  - destruct (create_client_fetches_once (Sample.world_of [Sample.server_error] 1))
      as (_ & _ & _ & _ & _ & _ & H & _).
    apply (H Sample.server_error []); reflexivity.
Defined.

(** ** The token guard inside the methods *)

Lemma _ensure_token_holds (st st1 : State) :
  _ensure_token st = (inr tt, st1) -> truthy (access_token (self st1)) = true.
Proof.
  rewrite _ensure_token_run.
  destruct (truthy (access_token (self st))) eqn:Ht.
  - intros [= <-]. exact Ht.
  - destruct (get_access_token st) as [[e|token] st'] eqn:G; [discriminate|].
    intros [= <-]. cbn. eapply get_access_token_truthy; exact G.
Qed.

Lemma exchange_after_ensure (k : call) (st st1 : State) :
  _ensure_token st = (inr tt, st1) -> exchange k st = exchange k st1.
Proof.
  intro E. pose proof (_ensure_token_holds _ _ E) as Ht.
  rewrite (exchange_run k st), (exchange_run k st1), E.
  rewrite (_ensure_token_run st1), Ht. reflexivity.
Qed.

Lemma invoke_after_ensure (k : call) (st st1 : State) :
  _ensure_token st = (inr tt, st1) -> invoke k st = invoke k st1.
Proof.
  intro E. rewrite (invoke_run k st), (invoke_run k st1).
  rewrite (exchange_after_ensure k st st1 E). reflexivity.
Qed.

Lemma invoke_ensure_fails (k : call) (st st1 : State) (e : exn) :
  _ensure_token st = (inl e, st1) -> invoke k st = (inl e, st1).
Proof. intro E. rewrite invoke_run, exchange_run, E. reflexivity. Qed.

(** X2.  [_ensure_token] is idempotent, and the call every method makes
    to it absorbs a call made just before: running it ahead of a method
    changes neither the outcome nor the traffic of the method. *)
Theorem ensure_token_absorbed (k : call) (st : State) :
  (_ensure_token ;; _ensure_token) st = _ensure_token st
  /\ (_ensure_token ;; invoke k) st = invoke k st.
Proof.
  unfold bind.
  destruct (_ensure_token st) as [[e|[]] st1] eqn:E.
  - split; [reflexivity|]. symmetry. apply invoke_ensure_fails. exact E.
  - split.
    + rewrite (_ensure_token_run st1), (_ensure_token_holds _ _ E). reflexivity.
    + symmetry. apply invoke_after_ensure. exact E.
Qed.

(** X3.  A method called on a client that holds no token and is refused
    one raises the failure of the token fetch: the only request issued is
    the token request, the clock is not read and the client is left as
    it was.  When a token is granted, the method goes on exactly as if
    called on a client holding that token. *)
Theorem call_without_token (k : call) (st : State) (r : Response)
    (rest : list Response) :
  truthy (access_token (self st)) = false ->
  inbox (world st) = r :: rest ->
  (forall e, token_of_response r = inl e ->
     invoke k st = (inl e, posted (token_request (self st)) rest st))
  /\ (forall token, token_of_response r = inr token ->
        invoke k st
        = invoke k (with_token token (posted (token_request (self st)) rest st))).
Proof.
  intros Ht Hin. split.
  - intros e T. apply invoke_ensure_fails.
    rewrite _ensure_token_run, Ht, get_access_token_run, Hin, T. reflexivity.
  - intros token T. apply invoke_after_ensure.
    rewrite _ensure_token_run, Ht, get_access_token_run, Hin, T. reflexivity.
Qed.

Lemma call_without_token_witness :
  invoke Sample.vehicles_call (Sample.state JNull [Sample.server_error])
  = (inl (AuthError 500 "oops"),
     posted (token_request (Sample.client JNull)) []
       (Sample.state JNull [Sample.server_error])).
Proof.
  exact (proj1 (call_without_token Sample.vehicles_call
                  (Sample.state JNull [Sample.server_error])
                  Sample.server_error [] eq_refl eq_refl)
           (AuthError 500 "oops") eq_refl).
Defined.

(** ** A call that needs no refresh *)

(** X4.  On a client that holds a token, when the first response does
    not ask for a refresh (its status is not 401 and its body carries no
    [code] 503), the method issues that one request and nothing else,
    takes that one response, leaves the client untouched, and answers
    from that response alone: a status other than 200 (a 500, a 404) is
    raised at once as the API error with that status and body, without a
    retry and without a token fetch. *)
Theorem call_without_refresh (k : call) (st : State) (r : Response)
    (rest : list Response) :
  truthy (access_token (self st)) = true ->
  inbox (world st) = r :: rest ->
  needs_refresh r = false ->
  let out := invoke k st in
  issued st (snd out) = [resource_request k st (access_token (self st))]
  /\ inbox (world (snd out)) = rest
  /\ self (snd out) = self st
  /\ fst out = records_of k r
  /\ (status_code r <> 200 ->
      fst out = inl (ApiError (what_of k) (status_code r) (text r))).
Proof.
  intros Ht Hin Hn out. subst out.
  rewrite (invoke_direct_run k st r rest Ht Hin Hn). cbn [fst snd].
  split; [|split; [|split; [|split]]].
  - apply issued_app. cbn.
    destruct (ticked_iter_world (clock_reads k) st) as (_ & O & _).
    rewrite O. reflexivity.
  - reflexivity.
  - cbn. apply ticked_iter_self.
  - reflexivity.
  - apply records_of_failure.
Qed.

Lemma call_without_refresh_witness :
  let st := Sample.state (JStr "tok")
              [ {| status_code := 500; text := "boom"; json_of := None |};
                Sample.grant "unused" ] in
  fst (invoke Sample.vehicles_call st) = inl (ApiError "vehicles" 500 "boom")
  /\ inbox (world (snd (invoke Sample.vehicles_call st))) = [Sample.grant "unused"].
Proof.
  intro st.
  destruct (call_without_refresh Sample.vehicles_call st
              {| status_code := 500; text := "boom"; json_of := None |}
              [Sample.grant "unused"] eq_refl eq_refl eq_refl)
    as (_ & H2 & _ & _ & H5).
  split; [apply H5; discriminate | exact H2].
Defined.

(** ** What goes on the wire *)

Lemma token_traffic_issued (st st' : State) (q : Request) :
  token_traffic st st' -> In q (issued st st') -> q = token_request (self st).
Proof.
  intros (_ & _ & _ & _ & _ & _ & _ & reqs & O & F) Hq.
  rewrite (issued_app _ _ _ O) in Hq.
  rewrite Forall_forall in F. apply F. exact Hq.
Qed.

(** X5.  Whatever the operation and the state it starts from, every
    request it issues is either the token request of the client (to the
    fixed token URL, with the credentials and no bearer) or, within a
    resource method, the request of that method under some token.  No
    other URL is contacted, the credentials never travel with a resource
    request, and a bearer token never travels with a token request. *)
Theorem only_two_kinds_of_request (op : operation) (st : State) (q : Request) :
  In q (issued st (after op st)) ->
  (q = token_request (self st)
   /\ url q = "https://oidc.bolt.eu/token" /\ bearer q = None)
  \/ (exists k token,
        op = Call k /\ q = resource_request k st token
        /\ url q = str_of (base_url (self st)) ++ path_of k
        /\ exists body, sent q = Json body).
Proof.
  assert (Tok : forall st', token_traffic st st' -> In q (issued st st') ->
                  q = token_request (self st)
                  /\ url q = "https://oidc.bolt.eu/token" /\ bearer q = None).
  { intros st' T Hq. rewrite (token_traffic_issued _ _ _ T Hq). repeat split. }
  destruct op as [| |r|k]; cbn [after].
  - destruct (_ensure_token st) as [x st'] eqn:E. cbn [snd].
    intro Hq. left. eapply Tok; [eapply _ensure_token_traffic; exact E | exact Hq].
  - destruct (get_access_token st) as [x st'] eqn:E. cbn [snd].
    intro Hq. left.
    eapply Tok; [exact (proj1 (get_access_token_traffic _ _ _ E)) | exact Hq].
  - destruct (_refresh_token_if_needed r st) as [x st'] eqn:E. cbn [snd].
    intro Hq. left.
    eapply Tok; [eapply _refresh_token_if_needed_traffic; exact E | exact Hq].
  - pose proof (invoke_traffic k st) as (toks0 & tail & O & F0 & _ & _ & _ & Tail).
    rewrite (issued_app _ _ _ O). rewrite Forall_forall in F0.
    intro Hq. apply in_app_or in Hq. destruct Hq as [Hq | Hq].
    { left. rewrite (F0 q Hq). repeat split. }
    assert (Res : forall token, q = resource_request k st token ->
              exists k0 token0,
                Call k = Call k0 /\ q = resource_request k0 st token0
                /\ url q = str_of (base_url (self st)) ++ path_of k0
                /\ exists body, sent q = Json body).
    { intros token ->. exists k, token. repeat split. eexists; reflexivity. }
    destruct Tail as [-> | (token1 & toks1 & F1 & _ & [-> | ->])].
    + contradiction.
    + rewrite Forall_forall in F1. destruct Hq as [<- | Hq].
      * right. eapply Res; reflexivity.
      * left. rewrite (F1 q Hq). repeat split.
    + rewrite Forall_forall in F1. destruct Hq as [<- | Hq].
      * right. eapply Res; reflexivity.
      * apply in_app_or in Hq. destruct Hq as [Hq | [<- | []]].
        -- left. rewrite (F1 q Hq). repeat split.
        -- right. eapply Res; reflexivity.
Qed.

Lemma only_two_kinds_of_request_witness :
  let st := Sample.state (JStr "old") Sample.retry_script in
  url (token_request (self st)) = "https://oidc.bolt.eu/token"
  /\ bearer (token_request (self st)) = None.
Proof.
  intro st.
  destruct (only_two_kinds_of_request (Call Sample.vehicles_call) st
              (token_request (self st)))
    as [(_ & H1 & H2) | (k & token & _ & H & _)].
  - right. left. reflexivity.
  - split; [exact H1 | exact H2].
  - discriminate H.
Defined.

(** X6.  No resource request is ever sent without a token: the bearer of
    every request a method issues is a truthy value (neither [None] nor
    the empty string), whether the client held a token or not when the
    method was called. *)
Theorem bearer_is_never_empty (k : call) (st : State) (q : Request) :
  In q (resource_requests st (snd (invoke k st))) ->
  exists token, bearer q = Some token /\ truthy token = true.
Proof.
  destruct (_ensure_token st) as [[e|[]] st1] eqn:E.
  - rewrite (invoke_ensure_fails k st st1 e E). cbn [snd].
    pose proof (_ensure_token_traffic _ _ _ E)
      as (_ & _ & _ & _ & _ & _ & _ & reqs & O & F).
    unfold resource_requests.
    rewrite (issued_app _ _ _ O), (filter_token_requests _ _ F). contradiction.
  - rewrite (invoke_after_ensure k st st1 E).
    pose proof (_ensure_token_holds _ _ E) as H1.
    pose proof (_ensure_token_traffic _ _ _ E)
      as (_ & _ & _ & _ & _ & _ & _ & reqs & O1 & F1).
    pose proof (invoke_traffic k st1)
      as (toks0 & tail & O & F0 & _ & T & _ & Tail).
    assert (O' : outbox (world (snd (invoke k st1)))
                 = (outbox (world st) ++ reqs ++ toks0 ++ tail)%list).
    { rewrite O, O1, <- app_assoc. reflexivity. }
    unfold resource_requests.
    rewrite (issued_app _ _ _ O'), !filter_app.
    rewrite (filter_token_requests _ _ F1), (filter_token_requests _ _ F0).
    cbn [app].
    destruct Tail as [-> | (token1 & toks1 & F & K & [-> | ->])].
    + contradiction.
    + destruct (K H1) as (-> & _). cbn.
      rewrite (filter_token_requests _ _ F).
      intros [<- | []]. eexists; split; [reflexivity | exact H1].
    + destruct (K H1) as (-> & _). cbn.
      rewrite filter_app, (filter_token_requests _ _ F). cbn.
      intros [<- | [<- | []]]; eexists; (split; [reflexivity|]); auto.
Qed.

Lemma bearer_is_never_empty_witness :
  let st := Sample.state JNull
              [Sample.grant "first"; Sample.ok (Sample.envelope "vehicles" [])] in
  exists token,
    bearer (resource_request Sample.vehicles_call st (JStr "first")) = Some token
    /\ truthy token = true.
Proof.
  intro st.
  apply (bearer_is_never_empty Sample.vehicles_call st).
  left. reflexivity.
Defined.

(** ** How much traffic a call can cause *)

Lemma grows_by_refl (st : State) : grows_by 0 st st.
Proof. exists []. split; [now rewrite app_nil_r | reflexivity]. Qed.

Lemma grows_by_trans (n m : nat) (a b c : State) :
  grows_by n a b -> grows_by m b c -> grows_by (n + m) a c.
Proof.
  intros (l1 & O1 & L1) (l2 & O2 & L2). exists (l1 ++ l2)%list. split.
  - rewrite O2, O1, app_assoc. reflexivity.
  - rewrite length_app. lia.
Qed.

Lemma grows_by_weaken (n m : nat) (a b : State) :
  (n <= m)%nat -> grows_by n a b -> grows_by m a b.
Proof. intros H (l & O & L). exists l. split; [exact O | lia]. Qed.

Lemma posted_grows (rq : Request) (rest : list Response) (st : State) :
  grows_by 1 st (posted rq rest st).
Proof. exists [rq]. split; reflexivity. Qed.

Lemma with_token_grows (n : nat) (token : json) (a b : State) :
  grows_by n a b -> grows_by n a (with_token token b).
Proof. intros (l & O & L). exists l. split; [exact O | exact L]. Qed.

Lemma get_access_token_grows (st st' : State) (x : result json) :
  get_access_token st = (x, st') -> grows_by 1 st st'.
Proof.
  rewrite get_access_token_run.
  destruct (inbox (world st)); intros [= _ <-]; apply posted_grows.
Qed.

Lemma refetch_grows (st st' : State) (x : result bool) :
  refetch st = (x, st') -> grows_by 1 st st'.
Proof.
  unfold refetch.
  destruct (get_access_token st) as [[e|token] st1] eqn:G;
    apply get_access_token_grows in G; intros [= _ <-];
    [exact G | apply with_token_grows; exact G].
Qed.

Lemma _ensure_token_grows (st st' : State) (x : result unit) :
  _ensure_token st = (x, st') ->
  grows_by (if truthy (access_token (self st)) then 0 else 1) st st'.
Proof.
  rewrite _ensure_token_run.
  destruct (truthy (access_token (self st))).
  - intros [= _ <-]. apply grows_by_refl.
  - destruct (get_access_token st) as [[e|token] st1] eqn:G;
      apply get_access_token_grows in G; intros [= _ <-];
      [exact G | apply with_token_grows; exact G].
Qed.

Lemma _refresh_token_if_needed_grows (r : Response) (st st' : State)
    (x : result bool) :
  _refresh_token_if_needed r st = (x, st') -> grows_by 2 st st'.
Proof.
  rewrite _refresh_token_if_needed_run.
  destruct (needs_refresh r);
    [|intros [= _ <-]; apply (grows_by_weaken 0); [lia | apply grows_by_refl]].
  destruct (json_of r) as [d|].
  - destruct (get_access_token st) as [[e|token] st1] eqn:G;
      apply get_access_token_grows in G.
    + destruct (status_code r =? 401).
      * intro R. apply refetch_grows in R.
        apply (grows_by_trans 1 1 st st1 st'); assumption.
      * intros [= _ <-]. apply (grows_by_weaken 1); [lia | exact G].
    + intros [= _ <-]. apply (grows_by_weaken 1); [lia|].
      apply with_token_grows; exact G.
  - intro R. apply refetch_grows in R. apply (grows_by_weaken 1); [lia | exact R].
Qed.

Lemma attempt_grows (k : call) (s e : Z) (st st' : State) (x : result Response) :
  attempt k s e st = (x, st') -> grows_by 1 st st'.
Proof.
  rewrite attempt_run.
  destruct (inbox (world st)); intros [= _ <-]; apply posted_grows.
Qed.

Lemma ticked_iter_grows (n : nat) (st : State) :
  grows_by 0 st (Nat.iter n ticked st).
Proof.
  exists []. destruct (ticked_iter_world n st) as (_ & O & _).
  rewrite O, app_nil_r. split; reflexivity.
Qed.

Lemma exchange_grows (k : call) (st st' : State) (x : result Response) :
  exchange k st = (x, st') ->
  grows_by (if truthy (access_token (self st)) then 4 else 5) st st'.
Proof.
  rewrite exchange_run.
  set (n0 := if truthy (access_token (self st)) then 0%nat else 1%nat).
  assert (Goal : forall m, (m <= 4)%nat -> grows_by (n0 + m) st st' ->
            grows_by (if truthy (access_token (self st)) then 4 else 5) st st').
  { intros m Hm G. eapply grows_by_weaken; [|exact G].
    unfold n0. destruct (truthy (access_token (self st))); lia. }
  destruct (_ensure_token st) as [[x1|[]] st1] eqn:E1;
    apply _ensure_token_grows in E1; fold n0 in E1.
  { intros [= _ <-]. apply (Goal 0%nat); [lia|].
    rewrite Nat.add_0_r. exact E1. }
  cbv zeta.
  pose proof (ticked_iter_grows (clock_reads k) st1) as E2.
  pose proof (grows_by_trans _ _ _ _ _ E1 E2) as E12.
  destruct (attempt k _ _ (Nat.iter (clock_reads k) ticked st1))
    as [[x3|r1] st3] eqn:E3; apply attempt_grows in E3;
    pose proof (grows_by_trans _ _ _ _ _ E12 E3) as E123.
  { intros [= _ <-]. apply (Goal 1%nat); [lia|].
    eapply grows_by_weaken; [|exact E123]. lia. }
  destruct (_refresh_token_if_needed r1 st3) as [[x4|[|]] st4] eqn:E4;
    apply _refresh_token_if_needed_grows in E4;
    pose proof (grows_by_trans _ _ _ _ _ E123 E4) as E1234.
  - intros [= _ <-]. apply (Goal 3%nat); [lia|].
    eapply grows_by_weaken; [|exact E1234]. lia.
  - intro E5. apply attempt_grows in E5.
    pose proof (grows_by_trans _ _ _ _ _ E1234 E5) as E12345.
    apply (Goal 4%nat); [lia|].
    eapply grows_by_weaken; [|exact E12345]. lia.
  - intros [= _ <-]. apply (Goal 3%nat); [lia|].
    eapply grows_by_weaken; [|exact E1234]. lia.
Qed.

(** X7.  A single call of a resource method issues at most five
    requests: a token fetch when no token is held, the request, up to two
    token fetches in the refresh test, and one retry; four at most when a
    token is held.  A call of the refresh test alone issues at most two,
    and the token guard at most one. *)
Theorem traffic_is_bounded (op : operation) (st : State) :
  (List.length (issued st (after op st))
   <= match op with
      | Ensure => if truthy (access_token (self st)) then 0 else 1
      | Fetch => 1
      | Refresh _ => 2
      | Call _ => if truthy (access_token (self st)) then 4 else 5
      end)%nat.
Proof.
  assert (B : forall n st', grows_by n st st' ->
                (List.length (issued st st') <= n)%nat).
  { intros n st' (l & O & L). rewrite (issued_app _ _ _ O). exact L. }
  destruct op as [| |r|k]; cbn [after]; apply B.
  - destruct (_ensure_token st) as [x st'] eqn:E.
    eapply _ensure_token_grows; exact E.
  - destruct (get_access_token st) as [x st'] eqn:E.
    eapply get_access_token_grows; exact E.
  - destruct (_refresh_token_if_needed r st) as [x st'] eqn:E.
    eapply _refresh_token_if_needed_grows; exact E.
  - rewrite invoke_run.
    destruct (exchange k st) as [[x|r] st'] eqn:E;
      apply exchange_grows in E; exact E.
Qed.

(** The bound of five is reached: no token held, a 401 with a JSON body,
    a refused token fetch followed by a granted one, and the retry. *)
Example five_requests :
  List.length
    (issued (Sample.state JNull [])
       (after (Call Sample.vehicles_call)
          (Sample.state JNull
             [ Sample.grant "first"; Sample.unauthorized; Sample.server_error;
               Sample.grant "second"; Sample.ok (Sample.envelope "vehicles" []) ])))
  = 5%nat.
Proof. reflexivity. Qed.

(** ** What a call leaves alone *)

Lemma same_config_refl (st : State) : same_config st st.
Proof. repeat split. Qed.

Lemma same_config_trans (a b c : State) :
  same_config a b -> same_config b c -> same_config a c.
Proof.
  intros (A1 & A2 & A3 & A4 & A5) (B1 & B2 & B3 & B4 & B5).
  unfold same_config; repeat split; congruence.
Qed.

Lemma token_traffic_config (a b : State) : token_traffic a b -> same_config a b.
Proof.
  intros (A1 & A2 & A3 & A4 & _ & A6 & _). unfold same_config; auto.
Qed.

Lemma posted_config (rq : Request) (rest : list Response) (st : State) :
  same_config st (posted rq rest st).
Proof. repeat split. Qed.

Lemma ticked_iter_config (n : nat) (st : State) :
  same_config st (Nat.iter n ticked st).
Proof.
  destruct (ticked_iter_world n st) as (_ & _ & C & E).
  unfold same_config. rewrite ticked_iter_self, C, E. repeat split.
Qed.

Lemma attempt_config (k : call) (s e : Z) (st st' : State) (x : result Response) :
  attempt k s e st = (x, st') -> same_config st st'.
Proof.
  rewrite attempt_run.
  destruct (inbox (world st)); intros [= _ <-]; apply posted_config.
Qed.

Lemma exchange_config (k : call) (st st' : State) (x : result Response) :
  exchange k st = (x, st') -> same_config st st'.
Proof.
  rewrite exchange_run.
  destruct (_ensure_token st) as [[x1|[]] st1] eqn:E1;
    apply _ensure_token_traffic, token_traffic_config in E1;
    [intros [= _ <-]; exact E1|].
  cbv zeta.
  pose proof (ticked_iter_config (clock_reads k) st1) as E2.
  destruct (attempt k _ _ (Nat.iter (clock_reads k) ticked st1))
    as [[x3|r1] st3] eqn:E3; apply attempt_config in E3.
  { intros [= _ <-]. eauto using same_config_trans. }
  destruct (_refresh_token_if_needed r1 st3) as [[x4|[|]] st4] eqn:E4;
    apply _refresh_token_if_needed_traffic, token_traffic_config in E4.
  - intros [= _ <-]. eauto using same_config_trans.
  - intro E5. apply attempt_config in E5. eauto 6 using same_config_trans.
  - intros [= _ <-]. eauto using same_config_trans.
Qed.

Lemma after_config (op : operation) (st : State) : same_config st (after op st).
Proof.
  destruct op as [| |r|k]; cbn [after].
  - destruct (_ensure_token st) as [x st'] eqn:E.
    eapply token_traffic_config, _ensure_token_traffic; exact E.
  - destruct (get_access_token st) as [x st'] eqn:E.
    exact (token_traffic_config _ _ (proj1 (get_access_token_traffic _ _ _ E))).
  - destruct (_refresh_token_if_needed r st) as [x st'] eqn:E.
    eapply token_traffic_config, _refresh_token_if_needed_traffic; exact E.
  - rewrite invoke_run.
    destruct (exchange k st) as [[x|r] st'] eqn:E;
      apply exchange_config in E; exact E.
Qed.

Lemma clock_reads_le_2 (k : call) : (clock_reads k <= 2)%nat.
Proof. unfold clock_reads. destruct (start_arg k), (end_arg k); cbn; lia. Qed.

Lemma after_reads (op : operation) (st : State) :
  (reads (world st) <= reads (world (after op st))
   <= match op with Call k => clock_reads k | _ => 0 end + reads (world st))%nat.
Proof.
  assert (T : forall st', token_traffic st st' ->
                (reads (world st) <= reads (world st') <= 0 + reads (world st))%nat).
  { intros st' (_ & _ & _ & _ & R & _). rewrite R. lia. }
  destruct op as [| |r|k]; cbn [after].
  - destruct (_ensure_token st) as [x st'] eqn:E.
    apply T. eapply _ensure_token_traffic; exact E.
  - destruct (get_access_token st) as [x st'] eqn:E.
    apply T. exact (proj1 (get_access_token_traffic _ _ _ E)).
  - destruct (_refresh_token_if_needed r st) as [x st'] eqn:E.
    apply T. eapply _refresh_token_if_needed_traffic; exact E.
  - pose proof (invoke_traffic k st) as (_ & _ & _ & _ & _ & _ & Rd & _).
    destruct Rd as [Rd | Rd]; rewrite Rd; lia.
Qed.

(** X8.  No operation of the client, returning or raising, changes the
    credentials, the base URL, the clock or the environment; the outbox
    is only ever extended and the inbox only ever consumed from the
    front; the clock is read at most once per missing bound of a
    resource call, and never by the token operations. *)
Theorem operations_keep_configuration (op : operation) (st : State) :
  same_config st (after op st)
  /\ (exists l, outbox (world (after op st)) = (outbox (world st) ++ l)%list)
  /\ (exists used, inbox (world st) = (used ++ inbox (world (after op st)))%list)
  /\ (reads (world st) <= reads (world (after op st))
      <= match op with Call k => clock_reads k | _ => 0 end + reads (world st))%nat
  /\ (forall k, op = Call k -> start_arg k <> None -> end_arg k <> None ->
        reads (world (after op st)) = reads (world st)).
Proof.
  split; [apply after_config|]. split; [|split; [|split]].
  - assert (G : exists n, grows_by n st (after op st)).
    { destruct op as [| |r|k]; cbn [after].
      - destruct (_ensure_token st) as [x st'] eqn:E.
        eexists. eapply _ensure_token_grows; exact E.
      - destruct (get_access_token st) as [x st'] eqn:E.
        eexists. eapply get_access_token_grows; exact E.
      - destruct (_refresh_token_if_needed r st) as [x st'] eqn:E.
        eexists. eapply _refresh_token_if_needed_grows; exact E.
      - rewrite invoke_run.
        destruct (exchange k st) as [[x|r] st'] eqn:E;
          apply exchange_grows in E; eexists; exact E. }
    destruct G as (n & l & O & _). exists l. exact O.
  - exact (proj1 (after_origin op st)).
  - apply after_reads.
  - intros k -> Hs He. pose proof (after_reads (Call k) st) as R.
    assert (Z0 : clock_reads k = 0%nat).
    { unfold clock_reads.
      destruct (start_arg k); [|contradiction].
      destruct (end_arg k); [|contradiction]. reflexivity. }
    cbv iota beta in R. rewrite Z0 in R. lia.
Qed.

(** ** Two calls in a row *)

(** X9.  The token obtained by the refresh of one call serves the next
    call: after a call that was granted [token] on a refresh, a second
    call (of any of the four methods) whose response asks for no refresh
    issues a single request, under [token], and no token request. *)
Theorem refreshed_token_is_reused (k1 k2 : call) (st : State)
    (r1 t r2 r3 : Response) (rest : list Response) (token : json) :
  truthy (access_token (self st)) = true ->
  inbox (world st) = r1 :: t :: r2 :: r3 :: rest ->
  needs_refresh r1 = true ->
  token_of_response t = inr token ->
  needs_refresh r3 = false ->
  let st1 := snd (invoke k1 st) in
  let out := invoke k2 st1 in
  issued st1 (snd out) = [resource_request k2 st1 token]
  /\ fst out = records_of k2 r3
  /\ access_token (self (snd out)) = token
  /\ inbox (world (snd out)) = rest.
Proof.
  intros Ht Hin Hn Htok Hn3 st1 out.
  destruct (invoke_retry_run k1 st r1 t r2 (r3 :: rest) token Ht Hin Hn Htok)
    as (st' & E & _ & I & T).
  assert (S1 : st1 = st') by (unfold st1; rewrite E; reflexivity).
  assert (Ht1 : truthy (access_token (self st1)) = true).
  { rewrite S1, T. eapply token_of_response_truthy; exact Htok. }
  assert (I1 : inbox (world st1) = r3 :: rest) by (rewrite S1; exact I).
  subst out. rewrite (invoke_direct_run k2 st1 r3 rest Ht1 I1 Hn3). cbn [fst snd].
  assert (T1 : access_token (self st1) = token) by (rewrite S1; exact T).
  split; [|split; [|split]].
  - apply issued_app. cbn.
    destruct (ticked_iter_world (clock_reads k2) st1) as (_ & O & _).
    rewrite O, T1. reflexivity.
  - reflexivity.
  - cbn. rewrite ticked_iter_self. exact T1.
  - reflexivity.
Qed.

Lemma refreshed_token_is_reused_witness :
  let st := Sample.state (JStr "old")
              (Sample.retry_script ++ [Sample.ok (Sample.envelope "drivers" [])]) in
  let st1 := snd (invoke Sample.vehicles_call st) in
  issued st1 (snd (invoke (GetDrivers 0 10 42 (PEnum active) (Some 1) (Some 2)) st1))
  = [resource_request (GetDrivers 0 10 42 (PEnum active) (Some 1) (Some 2))
       st1 (JStr "new")].
Proof.
  intros st st1.
  exact (proj1 (refreshed_token_is_reused Sample.vehicles_call
                  (GetDrivers 0 10 42 (PEnum active) (Some 1) (Some 2)) st
                  Sample.unauthorized (Sample.grant "new")
                  (Sample.ok (Sample.envelope "vehicles" [Sample.vehicle_item]))
                  (Sample.ok (Sample.envelope "drivers" [])) [] (JStr "new")
                  eq_refl eq_refl eq_refl eq_refl eq_refl)).
Defined.

Lemma operations_keep_configuration_witness :
  let k := GetDrivers 0 10 42 (PEnum active) (Some 1) (Some 2) in
  let st := Sample.state (JStr "old")
              [Sample.unauthorized; Sample.grant "new";
               Sample.ok (Sample.envelope "drivers" [])] in
  reads (world (after (Call k) st)) = reads (world st)
  /\ base_url (self (after (Call k) st)) = Some "https://fleet.example/api".
Proof.
  intros k st.
  destruct (operations_keep_configuration (Call k) st)
    as ((_ & _ & B & _) & _ & _ & _ & R).
  split; [apply (R k eq_refl); discriminate | exact B].
Defined.

(** ** From the items of a response to the records *)

Lemma construct_all_ok (model : ftype) (items : list json) (records : list value) :
  construct_all model items = inr records <->
  Forall2 (fun item record => construct model item = inr record) items records.
Proof.
  revert records. induction items as [|item rest IH]; intro records; cbn.
  - split; [intros [= <-]; constructor | intro H; inversion H; reflexivity].
  - destruct (construct model item) as [e|v] eqn:C.
    + split; [discriminate|]. intro H. inversion H; congruence.
    + destruct (construct_all model rest) as [e|vs] eqn:R.
      * split; [discriminate|]. intro H. inversion H as [|? ? ? ? Hc Hr]; subst.
        apply IH in Hr. discriminate.
      * split.
        -- intros [= <-]. constructor; [exact C | apply IH; reflexivity].
        -- intro H. inversion H as [|? ? ? ? Hc Hr]; subst.
           apply IH in Hr. congruence.
Qed.

Lemma construct_all_stops (model : ftype) (good : list json)
    (records : list value) (bad : json) (rest : list json) (e : exn) :
  Forall2 (fun item record => construct model item = inr record) good records ->
  construct model bad = inl e ->
  construct_all model (good ++ bad :: rest) = inl e.
Proof.
  intros F B. induction F as [|item record good' records' C _ IH]; cbn.
  - rewrite B. reflexivity.
  - rewrite C, IH. reflexivity.
Qed.

Lemma construct_all_failed (model : ftype) (items : list json) (e : exn) :
  construct_all model items = inl e ->
  exists good records bad rest,
    items = (good ++ bad :: rest)%list
    /\ Forall2 (fun item record => construct model item = inr record) good records
    /\ construct model bad = inl e.
Proof.
  induction items as [|item rest IH]; cbn; [discriminate|].
  destruct (construct model item) as [e'|v] eqn:C.
  - intros [= ->]. exists [], [], item, rest.
    split; [reflexivity|]. split; [constructor | exact C].
  - destruct (construct_all model rest) as [e'|vs]; [|discriminate].
    intros [= ->]. destruct (IH eq_refl) as (good & records & bad & rest' & -> & F & B).
    exists (item :: good), (v :: records), bad, rest'.
    split; [reflexivity|]. split; [constructor; assumption | exact B].
Qed.

Lemma construct_all_error (model : ftype) (items : list json) (e : exn) :
  construct_all model items = inl e <->
  exists good records bad rest,
    items = (good ++ bad :: rest)%list
    /\ Forall2 (fun item record => construct model item = inr record) good records
    /\ construct model bad = inl e.
Proof.
  split; [apply construct_all_failed|].
  intros (good & records & bad & rest & -> & F & B).
  eapply construct_all_stops; eassumption.
Qed.

(** X10.  The list comprehension at the end of every method is all or
    nothing and keeps the order: it returns records exactly when every
    item constructs, one record per item in the order of the items; it
    raises exactly when some item fails, and the error is that of the
    first failing item, so that a single bad item loses the whole page.
    The state is not touched. *)
Theorem comprehension_all_or_nothing (model : ftype) (items : list json)
    (st : State) :
  let out := mapM (fun item => lift (construct model item)) items st in
  snd out = st
  /\ (forall records,
        fst out = inr records <->
        Forall2 (fun item record => construct model item = inr record)
          items records)
  /\ (forall records, fst out = inr records ->
        List.length records = List.length items)
  /\ (forall e,
        fst out = inl e <->
        exists good records bad rest,
          items = (good ++ bad :: rest)%list
          /\ Forall2 (fun item record => construct model item = inr record)
               good records
          /\ construct model bad = inl e).
Proof.
  intro out. subst out. rewrite mapM_construct. cbn [fst snd].
  split; [reflexivity|]. split; [|split].
  - intro records. apply construct_all_ok.
  - intros records H. apply construct_all_ok in H.
    symmetry. eapply Forall2_length; exact H.
  - intro e. apply construct_all_error.
Qed.

Lemma comprehension_all_or_nothing_witness :
  fst (mapM (fun item => lift (construct Vehicle item))
         [Sample.vehicle_item; JObj Sample.vehicle_item_no_model; Sample.vehicle_item]
         (Sample.state (JStr "tok") []))
  = inl (ValidationError "Vehicle" [(["model"], "missing")]).
Proof.
  destruct (comprehension_all_or_nothing Vehicle
              [Sample.vehicle_item; JObj Sample.vehicle_item_no_model;
               Sample.vehicle_item]
              (Sample.state (JStr "tok") [])) as (_ & _ & _ & H).
  apply H.
  exists [Sample.vehicle_item], [Sample.vehicle_record],
         (JObj Sample.vehicle_item_no_model), [Sample.vehicle_item].
  repeat split. repeat constructor.
Defined.

(** X11.  What a method makes of the list field of a 200 response,
    according to the kind of value found there: a list gives one record
    per item; [null], a number or a boolean cannot be iterated and raise
    [TypeError]; a string or an object is iterated (by characters, by
    keys), so an empty one gives the empty list while any other raises
    [TypeError], its items being strings and not mappings. *)
Theorem list_field_by_kind (k : call) (r : Response) (kv d : list (string * json))
    (v : json) (st : State) :
  status_code r = 200 ->
  json_of r = Some (JObj kv) ->
  dict_get kv "data" = Some (JObj d) ->
  dict_get d (list_field k) = Some v ->
  finish k r st =
  (match v with
   | JArr items => construct_all (model_of k) items
   | JStr s => match s with EmptyString => inr [] | _ => inl TypeError end
   | JObj o => match o with [] => inr [] | _ => inl TypeError end
   | JNull | JBool _ | JInt _ | JFloat _ => inl TypeError
   end, st).
Proof.
  intros Hs Hj Hd Hl. rewrite finish_run. f_equal.
  unfold records_of. rewrite Hs, Hj. cbn. rewrite Hd. cbn. rewrite Hl.
  destruct v as [| | | |s|items|o]; try reflexivity.
  - destruct s; reflexivity.
  - destruct o as [|[key x] o']; reflexivity.
Qed.

Lemma list_field_by_kind_witness :
  finish Sample.vehicles_call
    (Sample.ok (JObj [("data", JObj [("vehicles", JNull)])]))
    (Sample.state (JStr "tok") [])
  = (inl TypeError, Sample.state (JStr "tok") []).
Proof.
  exact (list_field_by_kind Sample.vehicles_call
           (Sample.ok (JObj [("data", JObj [("vehicles", JNull)])]))
           [("data", JObj [("vehicles", JNull)])] [("vehicles", JNull)] JNull
           (Sample.state (JStr "tok") []) eq_refl eq_refl eq_refl eq_refl).
Defined.

(** ** The status enumeration and the shape of records *)

(** X12.  The two members of [PortalStatus] and their string values
    correspond one to one: looking a member up by its value gives the
    member back, only the two values are accepted (exactly as written),
    and a status taken from a record and passed as the filter of
    [get_vehicles] or [get_drivers] is sent as the string that validates
    to the same status. *)
Theorem portal_status_roundtrip :
  (forall p, PortalStatus_of_string (PortalStatus_value p) = Some p)
  /\ (forall s p, PortalStatus_of_string s = Some p -> s = PortalStatus_value p)
  /\ (forall p q, PortalStatus_value p = PortalStatus_value q -> p = q)
  /\ (forall p, validate TPortalStatus (portal_status_value (PEnum p))
                = inr (VStatus p))
  /\ (forall j v, validate TPortalStatus j = inr v <->
                  exists p, j = JStr (PortalStatus_value p) /\ v = VStatus p).
Proof.
  assert (R : forall s p, PortalStatus_of_string s = Some p -> s = PortalStatus_value p).
  { intros s p. unfold PortalStatus_of_string.
    destruct (String.eqb_spec s "active") as [->|_]; [intros [= <-]; reflexivity|].
    destruct (String.eqb_spec s "inactive") as [->|_]; [intros [= <-]; reflexivity|].
    discriminate. }
  split; [intros []; reflexivity|]. split; [exact R|].
  split; [intros [] []; (reflexivity || discriminate)|].
  split; [intros []; reflexivity|].
  intros j v. split.
  - destruct j; try discriminate. cbn.
    destruct (PortalStatus_of_string s) as [p|] eqn:E; [|discriminate].
    intros [= <-]. exists p. split; [f_equal; apply R; exact E | reflexivity].
  - intros (p & -> & ->). destruct p; reflexivity.
Qed.

Lemma dict_get_absent {A} (l : list (string * A)) (k : string) :
  ~ In k (map fst l) -> dict_get l k = None.
Proof.
  induction l as [|[k' v] rest IH]; cbn; [reflexivity|].
  intro H. destruct (String.eqb_spec k' k) as [->|_].
  - exfalso. apply H. left. reflexivity.
  - apply IH. intro Hin. apply H. right. exact Hin.
Qed.

(** X13.  A record that has been constructed has the shape of its class
    and not of the payload: its attributes are the declared fields, each
    exactly once and in the order of the declaration, whatever the order
    of the keys received; a key that is not declared is not in the
    record; and every required field was present in the payload. *)
Theorem record_has_declared_shape (m : ftype) (kv : list (string * json))
    (v : value) :
  In m record_types ->
  construct m (JObj kv) = inr v ->
  exists attrs,
    v = VModel (title_of m) attrs
    /\ map fst attrs = map field_name (fields_of m)
    /\ (forall name, In name (map field_name (fields_of m)) ->
          exists x, attr v name = Some x)
    /\ (forall name, ~ In name (map field_name (fields_of m)) ->
          attr v name = None)
    /\ (forall name t, In (Req name t) (fields_of m) ->
          exists j, dict_get kv name = Some j).
Proof.
  intros Hm. rewrite (construct_record m kv Hm).
  destruct (validate_fields (fields_of m) kv) as [es|attrs] eqn:E; [discriminate|].
  intros [= <-]. exists attrs.
  destruct (validate_fields_success _ _ _ E) as (Hn & Hf).
  pose proof (record_types_nodup m Hm) as N.
  split; [reflexivity|]. split; [exact Hn|]. split; [|split].
  - intros name Hin. apply in_map_iff in Hin. destruct Hin as (f & <- & Hin).
    destruct (Hf f Hin) as (x & _ & Hx). exists x. cbn [attr].
    apply dict_get_nodup; [rewrite Hn; exact N | exact Hx].
  - intros name Hnot. cbn [attr]. apply dict_get_absent. rewrite Hn. exact Hnot.
  - intros name t Hin. destruct (Hf _ Hin) as (x & Hx & _).
    cbn [validate_field field_name] in Hx.
    destruct (dict_get kv name) as [j|]; [exists j; reflexivity | discriminate].
Qed.

Lemma record_has_declared_shape_witness :
  exists attrs,
    Sample.vehicle_record = VModel "Vehicle" attrs
    /\ map fst attrs = ["id"; "model"; "year"; "reg_number"; "uuid"; "state"].
Proof.
  destruct (record_has_declared_shape Vehicle
              (("color", JStr "red") :: rev Sample.vehicle_item_fields)
              Sample.vehicle_record (or_introl eq_refl) eq_refl)
    as (attrs & E & N & _).
  exists attrs. split; [exact E | exact N].
Defined.

(** ** The length of the default window *)

Lemma wall_seconds_mono (t1 t2 : datetime) :
  wall t1 <= wall t2 ->
  wall_seconds t1 <= wall_seconds t2
  /\ (wall t2 - wall t1 < 1000000 -> wall_seconds t2 <= wall_seconds t1 + 1).
Proof.
  unfold wall_seconds. intro H. split.
  - apply Z.div_le_mono; lia.
  - intro Hlt.
    replace (wall t1 / 1000000 + 1) with ((wall t1 + 1 * 1000000) / 1000000)
      by (rewrite Z.div_add by lia; reflexivity).
    apply Z.div_le_mono; lia.
Qed.

(** X14.  With both bounds omitted, and where the float timestamps are
    exact to the second, the window in every request of a method has
    length [end_ts - start_ts] equal to 86400, plus the whole wall-clock
    seconds between the two readings of the clock, plus what the UTC
    offset of the zone was a day before the first reading minus what it
    is at the second.  So with an unchanged offset and a clock that does
    not run backwards the window is never shorter than a day, and is
    86400 or 86401 when the readings are less than a second apart;
    across a change of offset it is shorter or longer by that change. *)
Theorem default_window_length (k : call) (st : State) :
  start_arg k = None -> end_arg k = None ->
  let w := world st in
  let t1 := clock w (reads w) in
  let t2 := clock w (S (reads w)) in
  timestamp_exact w (minus_timedelta t1 (timedelta_days 1)) ->
  timestamp_exact w t2 ->
  (truthy (access_token (self st)) = true ->
   exists q rest, resource_requests st (snd (invoke k st)) = q :: rest)
  /\ forall q,
       In q (resource_requests st (snd (invoke k st))) ->
       exists kv s e,
         sent q = Json (JObj kv)
         /\ dict_get kv "start_ts" = Some (JInt s)
         /\ dict_get kv "end_ts" = Some (JInt e)
         /\ e - s = 86400 + (wall_seconds t2 - wall_seconds t1)
                    + (utc_offset w (minus_timedelta t1 (timedelta_days 1))
                       - utc_offset w t2)
         /\ (wall t1 <= wall t2 ->
             utc_offset w (minus_timedelta t1 (timedelta_days 1))
             = utc_offset w t2 ->
             86400 <= e - s
             /\ (wall t2 - wall t1 < 1000000 -> e - s <= 86401)).
Proof.
  intros Hs He w t1 t2 X1 X2. split.
  { intro Ht. destruct (invoke_issues_resource_request k st Ht) as (rest & E).
    eexists; eexists; exact E. }
  intros q Hq.
  apply resource_requests_of_invoke in Hq. destruct Hq as (token & ->).
  destruct (body_of_window k (fst (window k w)) (snd (window k w)))
    as (kv & Hb & Hst & Hen).
  exists kv, (fst (window k w)), (snd (window k w)).
  cbn [sent resource_request]. fold w. rewrite Hb.
  split; [reflexivity|]. split; [exact Hst|]. split; [exact Hen|].
  unfold window. rewrite Hs, He. cbn [fst snd]. fold t1 t2.
  unfold timestamp_exact in X1, X2. rewrite X1, X2.
  unfold utc_offset. rewrite !wall_seconds_day_before. split; [lia|].
  intros H12 Off. destruct (wall_seconds_mono t1 t2 H12) as (Lo & Hi).
  split; [lia|]. intro Hlt. specialize (Hi Hlt). lia.
Qed.

Lemma default_window_length_witness :
  let st := Sample.state_in_tallinn 1698588000000000
              [Sample.ok (Sample.envelope "vehicles" [])] in
  exists q rest kv s e,
    resource_requests st (snd (invoke Sample.vehicles_call st)) = q :: rest
    /\ sent q = Json (JObj kv)
    /\ dict_get kv "start_ts" = Some (JInt s)
    /\ dict_get kv "end_ts" = Some (JInt e)
    /\ e - s = 90000.
Proof.
  intro st.
  destruct (default_window_length Sample.vehicles_call st eq_refl eq_refl
              eq_refl eq_refl) as (First & All).
  destruct (First eq_refl) as (q & rest & E).
  assert (Hq : In q (resource_requests st (snd (invoke Sample.vehicles_call st))))
    by (rewrite E; left; reflexivity).
  destruct (All q Hq) as (kv & s & e & H1 & H2 & H3 & Len & _).
  exists q, rest, kv, s, e.
  split; [exact E|]. split; [exact H1|]. split; [exact H2|]. split; [exact H3|].
  rewrite Len. reflexivity.
Defined.
